(** * OAuth / GraphQL / REST front-end: service container, services and controllers

    A shallow embedding of the JavaScript sources

      - [IoCContainer]        (dependency-injection container with lifetimes),
      - [AuthService], [AuthController]           (OAuth code exchange),
      - [ResourceService], [ResourceController]   (profile, activities, groups),

    together with the properties the specification states about them.

    Conventions of the embedding.
      - JavaScript values are the inductive [value]; numbers are [number]
        (the integers together with NaN, the two infinities and the negative
        zero, which is what [parseInt] and [Math.ceil(120 / limit)] produce).
      - A function that may throw returns a [result]; code that also mutates
        the container, the request context or the response threads a state
        through the monad [M].
      - [Map] objects with string keys are [gmap string _].
      - Source texts and query parameters are ASCII strings.  Calls of the
        logger are left out: they have no effect on what is returned or
        stored.  What lies outside the sources (express, axios,
        graphql-request, jwt-decode, express-http-context, and the helpers
        [HttpError] and [convertToHttpError] of lib/) appears as the answer
        of the provider, as a parameter, or by its documented behaviour. *)

From Stdlib Require Import ZArith Ascii String List Lia.
From stdpp Require Import base option gmap strings list.

(** ** Values *)

(** JavaScript numbers, restricted to the values the modelled code computes:
    integers (exact below 2^53 in absolute value), NaN, +Infinity, -Infinity
    and -0. *)
Inductive number : Type :=
| NaN
| PosInf
| NegInf
| NegZero
| Finite (z : Z).

#[warnings="-register-all"]
Inductive value : Type :=
| VUndefined
| VNull
| VBool (b : bool)
| VNumber (n : number)
| VString (s : string)
| VObject (fields : list (string * value))   (* plain data record *)
| VInstance (id : nat)                        (* object with identity *)
| VError (name : string) (message : string)   (* Error, TypeError, RangeError *)
| VPromise (fulfilled : bool) (payload : value).

(** Outcome of evaluating an expression or a call: a value, or a thrown
    exception. *)
Inductive result (A : Type) : Type :=
| Returns (a : A)
| Throws (e : value).
Arguments Returns {A} a.
Arguments Throws {A} e.

(** [!x]: ToBoolean. *)
Definition truthy (v : value) : bool :=
  match v with
  | VUndefined | VNull => false
  | VBool b => b
  | VNumber NaN | VNumber NegZero => false
  | VNumber (Finite z) => negb (z =? 0)%Z
  | VNumber _ => true
  | VString s => negb (String.eqb s "")
  | VObject _ | VInstance _ | VError _ _ | VPromise _ _ => true
  end.

Definition falsy (v : value) : bool := negb (truthy v).

(** [typeof v === 'object' || typeof v === 'function'], for non-null [v]. *)
Definition is_object (v : value) : bool :=
  match v with
  | VObject _ | VInstance _ | VError _ _ | VPromise _ _ => true
  | _ => false
  end.

(** Property read [v.k]: a TypeError on undefined and null, the field of a
    record, undefined otherwise. *)
Fixpoint assoc (k : string) (fields : list (string * value)) : value :=
  match fields with
  | [] => VUndefined
  | (k', v) :: rest => if String.eqb k k' then v else assoc k rest
  end.

Definition get_property (v : value) (k : string) : result value :=
  match v with
  | VUndefined | VNull =>
      Throws (VError "TypeError" ("Cannot read properties of undefined (reading '" +:+ k +:+ "')"))
  | VObject fields => Returns (assoc k fields)
  | _ => Returns VUndefined
  end.

(** ** Numbers *)

(** [a <= b] on numbers: false as soon as one side is NaN; -0 compares as 0. *)
Definition number_le (a b : number) : bool :=
  match a, b with
  | NaN, _ | _, NaN => false
  | NegInf, _ => true
  | _, PosInf => true
  | PosInf, _ => false
  | _, NegInf => false
  | NegZero, NegZero => true
  | NegZero, Finite y => (0 <=? y)%Z
  | Finite x, NegZero => (x <=? 0)%Z
  | Finite x, Finite y => (x <=? y)%Z
  end.

(** [Math.ceil(n / d)] for a positive integer constant [n]:
    n / NaN = NaN, n / +-Infinity = +-0, n / +-0 = +-Infinity, and for a nonzero
    integer [d] the ceiling of the exact quotient, which is -0 when the
    quotient lies in (-1, 0). *)
Definition ceil_div (n : Z) (d : number) : number :=
  match d with
  | NaN => NaN
  | PosInf => Finite 0
  | NegInf => NegZero
  | NegZero => NegInf
  | Finite 0 => PosInf
  | Finite z =>
      let c := (- ((- n) / z))%Z in
      if (c =? 0)%Z then NegZero else Finite c
  end.

(** *** parseInt *)

(** White space and digits, for ASCII input. *)
Definition is_space (c : ascii) : bool :=
  let n := nat_of_ascii c in
  ((n =? 32) || ((9 <=? n) && (n <=? 13)))%nat.

Definition digit_value (c : ascii) : option Z :=
  let n := Z.of_nat (nat_of_ascii c) in
  if ((48 <=? n) && (n <=? 57))%Z then Some (n - 48)%Z
  else if ((97 <=? n) && (n <=? 102))%Z then Some (n - 87)%Z
  else if ((65 <=? n) && (n <=? 70))%Z then Some (n - 55)%Z
  else None.

Fixpoint skip (p : ascii -> bool) (s : string) : string :=
  match s with
  | String c r => if p c then skip p r else s
  | EmptyString => s
  end.

(** The longest prefix of radix-[radix] digits of [s], read with accumulator
    [acc]; [None] when that prefix is empty. *)
Fixpoint read_digits (radix : Z) (seen : bool) (acc : Z) (s : string) : option Z :=
  match s with
  | String c r =>
      match digit_value c with
      | Some d =>
          if (d <? radix)%Z then read_digits radix true (acc * radix + d)%Z r
          else if seen then Some acc else None
      | None => if seen then Some acc else None
      end
  | EmptyString => if seen then Some acc else None
  end.

(** [parseInt(string)] with no radix argument, on an ASCII string. *)
Definition parseInt_string (input : string) : number :=
  let s := skip is_space input in
  let '(negative, s) :=
    match s with
    | String "-" r => (true, r)
    | String "+" r => (false, r)
    | _ => (false, s)
    end in
  let '(radix, s) :=
    match s with
    | String "0" (String "x" r) | String "0" (String "X" r) => (16%Z, r)
    | _ => (10%Z, s)
    end in
  match read_digits radix false 0 s with
  | None => NaN
  | Some 0%Z => if negative then NegZero else Finite 0
  | Some m => Finite (if negative then - m else m)
  end.

(** A query-string parameter is absent ([undefined]) or a string;
    [parseInt] first converts its argument with ToString. *)
Definition ToString_param (p : option string) : string :=
  match p with
  | None => "undefined"
  | Some s => s
  end.

Definition parseInt (p : option string) : number :=
  parseInt_string (ToString_param p).

(** ** The state-and-exception monad

    [M S A] is a computation over a mutable state [S] that returns an [A] or
    throws; a thrown exception keeps the mutations made before it. *)

Definition M (S A : Type) : Type := S -> result A * S.

Definition ret {S A} (a : A) : M S A := fun st => (Returns a, st).

Definition throw {S A} (e : value) : M S A := fun st => (Throws e, st).

Definition bind {S A B} (m : M S A) (k : A -> M S B) : M S B :=
  fun st =>
    match m st with
    | (Returns a, st') => k a st'
    | (Throws e, st') => (Throws e, st')
    end.

(** [try { m } catch (error) { handler error }] *)
Definition try_catch {S A} (m : M S A) (handler : value -> M S A) : M S A :=
  fun st =>
    match m st with
    | (Returns a, st') => (Returns a, st')
    | (Throws e, st') => handler e st'
    end.

Definition lift {S A} (r : result A) : M S A := fun st => (r, st).

Definition modify {S} (f : S -> S) : M S unit := fun st => (Returns tt, f st).

Definition gets {S A} (f : S -> A) : M S A := fun st => (Returns (f st), st).

Notation "'let*' x ':=' m 'in' k" := (bind m (fun x => k))
  (at level 10, x name, m at level 200, k at level 200).

(** [deps.map(f)] for an effectful [f]: left to right, stopping at the first
    exception. *)
Fixpoint mapM {S A B} (f : A -> M S B) (l : list A) : M S (list B) :=
  match l with
  | [] => ret []
  | a :: rest =>
      let* b := f a in
      let* bs := mapM f rest in
      ret (b :: bs)
  end.

(** An [async] function returns a promise that carries the outcome of its
    body; [await] unwraps a promise (and passes any other value through). *)
Definition async {S} (m : M S value) : M S value :=
  fun st =>
    match m st with
    | (Returns v, st') => (Returns (VPromise true v), st')
    | (Throws e, st') => (Returns (VPromise false e), st')
    end.

Definition await {S} (v : value) : M S value :=
  match v with
  | VPromise true payload => ret payload
  | VPromise false reason => throw reason
  | _ => ret v
  end.

(** ** IoCContainer *)

Inductive ServiceLifetime : Type :=
| Scoped
| Singleton
| Transient.

(** *** The arrow-function pattern

    [arrowFunctionRegex] is
    [/^\s*(\(\s*\)|\(\s*\w+\s*\)|\w+)\s*=>\s*{?\s*[\s\S]*\s*}?\s*$/].
    Everything after the arrow is optional or matches any text, so the test
    succeeds exactly on source texts that start, after white space, with a
    parameter list [()], [(x)] or [x] followed by [=>]. *)

Definition is_word (c : ascii) : bool :=
  let n := nat_of_ascii c in
  (((48 <=? n) && (n <=? 57)) || ((65 <=? n) && (n <=? 90))
   || ((97 <=? n) && (n <=? 122)) || (n =? 95))%nat.

Definition starts_with_arrow (s : string) : bool :=
  match s with
  | String c1 (String c2 _) => Ascii.eqb c1 "=" && Ascii.eqb c2 ">"
  | _ => false
  end.

Definition arrowFunctionRegex_test (source : string) : bool :=
  match skip is_space source with
  | String c r =>
      if Ascii.eqb c "(" then
        match skip is_space (skip is_word (skip is_space r)) with
        | String c' t => Ascii.eqb c' ")" && starts_with_arrow (skip is_space t)
        | EmptyString => false
        end
      else
        is_word c && starts_with_arrow (skip is_space (skip is_word r))
  | EmptyString => false
  end.

(** *** Definitions and their behaviour

    The body of a user-supplied function is a tree of the effects it can
    have on the container's world: it returns, throws, creates a fresh
    object, or calls the resolver and goes on with the outcome (so that a
    [try]/[catch] around the call can be expressed). *)
Inductive body : Type :=
| Return (v : value)
| Throw (e : value)
| Fresh (k : nat -> body)
| Resolve (name : string) (k : result value -> body).

(** What can be registered as a service definition.
      - [Class ctor]: a class or function declaration (it has a [prototype]
        and can be invoked with [new]); [ctor this args] is the constructor's
        body.
      - [ArrowFunction source fn]: a function without [prototype], with its
        source text [toString()]; [fn] is its body, where [Resolve] calls the
        function's argument.  It cannot be invoked with [new].
      - [NonFunction v]: any other value. *)
Inductive definition : Type :=
| Class (ctor : value -> list value -> body)
| ArrowFunction (source : string) (fn : body)
| NonFunction (v : value).

Record Service : Type := {
  service_definition : definition;
  dependencies : list string;
  serviceLifetime : ServiceLifetime;
  isArrowFunction : bool
}.

(** The container ([services], [singletons]) and the world around it: the
    request-scoped stores of express-http-context, one per request, and the
    allocator of object identities.  [constructions] counts the calls of
    [createInstance]; no code reads it. *)
Record state : Type := {
  services : gmap string Service;
  singletons : gmap string value;
  httpContext : gmap nat (gmap string value);
  next_id : nat;
  constructions : nat
}.

Definition IoCContainer_new : state :=
  {| services := ∅; singletons := ∅; httpContext := ∅;
     next_id := 0; constructions := 0 |}.

Definition services_set (name : string) (service : Service) (st : state) : state :=
  {| services := <[name := service]> (services st);
     singletons := singletons st;
     httpContext := httpContext st;
     next_id := next_id st;
     constructions := constructions st |}.

Definition singletons_set (name : string) (instance : value) (st : state) : state :=
  {| services := services st;
     singletons := <[name := instance]> (singletons st);
     httpContext := httpContext st;
     next_id := next_id st;
     constructions := constructions st |}.

Definition singletons_get (name : string) (st : state) : value :=
  default VUndefined (singletons st !! name).

Definition singletons_has (name : string) (st : state) : bool :=
  bool_decide (is_Some (singletons st !! name)).

Definition allocate (st : state) : state :=
  {| services := services st;
     singletons := singletons st;
     httpContext := httpContext st;
     next_id := S (next_id st);
     constructions := constructions st |}.

Definition count_construction (st : state) : state :=
  {| services := services st;
     singletons := singletons st;
     httpContext := httpContext st;
     next_id := next_id st;
     constructions := S (constructions st) |}.

(** [httpContext.get(key)] and [httpContext.set(key, value)] in the ambient
    request [request]: outside of a request ([None]) [get] yields undefined
    and [set] does nothing. *)
Definition httpContext_get (request : option nat) (key : string) (st : state) : value :=
  match request with
  | None => VUndefined
  | Some r => default VUndefined (default ∅ (httpContext st !! r) !! key)
  end.

Definition httpContext_set (request : option nat) (key : string) (v : value)
    (st : state) : state :=
  match request with
  | None => st
  | Some r =>
      {| services := services st;
         singletons := singletons st;
         httpContext := <[r := <[key := v]> (default ∅ (httpContext st !! r))]> (httpContext st);
         next_id := next_id st;
         constructions := constructions st |}
  end.

Definition scoped_key (name : string) : string := "ServiceLifetime.Scoped." +:+ name.

(** *** Registration *)

(** [typeof definition === 'function' && definition.prototype === undefined
    && arrowFunctionRegex.test(definition.toString())]: only a function
    without prototype reaches the test of its source text. *)
Definition is_arrow_function (d : definition) : bool :=
  match d with
  | ArrowFunction source _ => arrowFunctionRegex_test source
  | Class _ => false
  | NonFunction _ => false
  end.

(** [#register(name, definition, { dependencies, serviceLifetime })] *)
Definition register (name : string) (d : definition) (deps : list string)
    (lifetime : ServiceLifetime) (st : state) : state :=
  services_set name
    {| service_definition := d;
       dependencies := deps;
       serviceLifetime := lifetime;
       isArrowFunction := is_arrow_function d |} st.

Definition registerScoped (name : string) (d : definition) (deps : list string) :=
  register name d deps Scoped.

Definition registerSingleton (name : string) (d : definition) (deps : list string) :=
  register name d deps Singleton.

Definition registerTransient (name : string) (d : definition) (deps : list string) :=
  register name d deps Transient.

(** *** Resolution *)

Section Resolution.

(** [this.resolve.bind(this)], as seen by the private methods. *)
Variable resolve : string -> M state value.

(** Running a function body: [Resolve] calls [resolve]. *)
Fixpoint run (b : body) : M state value :=
  match b with
  | Return v => ret v
  | Throw e => throw e
  | Fresh k => fun st => run (k (next_id st)) (allocate st)
  | Resolve name k => fun st => let '(r, st') := resolve name st in run (k r) st'
  end.

(** [definition(resolve)].  A registered service reaches this call only with
    an arrow function: [isArrowFunction] is false for anything else. *)
Definition call_definition (d : definition) : M state value :=
  match d with
  | ArrowFunction _ fn => run fn
  | Class _ =>
      throw (VError "TypeError" "Class constructor cannot be invoked without 'new'")
  | NonFunction _ => throw (VError "TypeError" "service.definition is not a function")
  end.

(** [new definition(...args)]: a fresh object is allocated as [this]; the
    result is that object unless the constructor returns an object of its
    own. *)
Definition new_definition (d : definition) (args : list value) : M state value :=
  match d with
  | Class ctor =>
      fun st =>
        let this := VInstance (next_id st) in
        match run (ctor this args) (allocate st) with
        | (Returns r, st') => (Returns (if is_object r then r else this), st')
        | (Throws e, st') => (Throws e, st')
        end
  | ArrowFunction _ _ | NonFunction _ =>
      throw (VError "TypeError" "service.definition is not a constructor")
  end.

(** [#createInstance(service)] *)
Definition createInstance (service : Service) : M state value :=
  let* _ := modify count_construction in
  if isArrowFunction service then
    call_definition (service_definition service)
  else
    let* args := mapM resolve (dependencies service) in
    new_definition (service_definition service) args.

(** [#resolveScopedInstance(service, name)] in the ambient request. *)
Definition resolveScopedInstance (request : option nat) (service : Service)
    (name : string) : M state value :=
  let* instance := gets (httpContext_get request (scoped_key name)) in
  if negb (truthy instance) then
    let* instance := createInstance service in
    let* _ := modify (httpContext_set request (scoped_key name) instance) in
    ret instance
  else
    ret instance.

(** [#resolveSingletonInstance(service, name)] *)
Definition resolveSingletonInstance (service : Service) (name : string) : M state value :=
  let* has := gets (singletons_has name) in
  let* _ :=
    if negb has then
      let* singletonInstance := createInstance service in
      modify (singletons_set name singletonInstance)
    else ret tt in
  gets (singletons_get name).

End Resolution.

(** [resolve(name)].  [fuel] bounds the depth of nested [resolve] calls;
    when it runs out the call throws the RangeError of an exhausted call
    stack (circular dependencies are not detected). *)
Fixpoint resolve (fuel : nat) (request : option nat) (name : string) : M state value :=
  match fuel with
  | O => throw (VError "RangeError" "Maximum call stack size exceeded")
  | S fuel' =>
      let* service := gets (fun st => services st !! name) in
      match service with
      | None => throw (VError "Error" ("Service '" +:+ name +:+ "' not found."))
      | Some service =>
          match serviceLifetime service with
          | Singleton =>
              resolveSingletonInstance (resolve fuel' request) service name
          | Scoped =>
              resolveScopedInstance (resolve fuel' request) request service name
          | Transient =>
              createInstance (resolve fuel' request) service
          end
      end
  end.

(** ** Services and controllers *)

(** What a request handler does to the outside: outbound calls to the
    provider and the three ways of ending the request. *)
Inductive effect : Type :=
| AxiosPost (url : string) (code : value)
| AxiosGet (url : string) (per_page page : number) (authorization : value)
| GraphQLRequest (authorization : value) (query : string)
| Redirect (location : string)
| Render (view : string) (locals : value)
| Next (error : value).

(** One request being handled: [req.session.user], [req.query] and the
    effects emitted so far (oldest first). *)
Record exchange : Type := {
  session_user : value;
  query : gmap string string;
  emitted : list effect
}.

Definition emit (e : effect) : M exchange value :=
  fun x =>
    (Returns VUndefined,
     {| session_user := session_user x; query := query x;
        emitted := emitted x ++ [e] |}).

Definition set_session_user (user : value) (x : exchange) : exchange :=
  {| session_user := user; query := query x; emitted := emitted x |}.

(** The provider's answer to an HTTP call. *)
Inductive http_reply : Type :=
| NetworkError (error : value)
| Response (status : Z) (data : value).

(** axios settles its promise with the response when the status is 2xx and
    rejects it otherwise. *)
Definition axios_settle (reply : http_reply) : value :=
  match reply with
  | NetworkError error => VPromise false error
  | Response status data =>
      let response := VObject [("status", VNumber (Finite status)); ("data", data)] in
      if ((200 <=? status) && (status <? 300))%Z then VPromise true response
      else VPromise false (VObject [("name", VString "AxiosError"); ("response", response)])
  end.

(** [graphQLClient.request(query)] settles with the data or rejects. *)
Definition graphql_settle (reply : result value) : value :=
  match reply with
  | Returns data => VPromise true data
  | Throws error => VPromise false error
  end.

Definition token_url : string := "/token".
Definition events_url : string := "https://gitlab.lnu.se/api/v4/events".
Definition lastActivity_query : string := "query { currentUser { lastActivityOn } }".
Definition groups_query : string := "query { currentUser { groups(first: 3) { ... } } }".

Section Application.

(** [new HttpError(error)] and [convertToHttpError(error)] of lib/, and
    [jwtDecode] of jwt-decode. *)
Variable HttpError : value -> value.
Variable convertToHttpError : value -> value.
Variable jwtDecode : value -> result value.

(** *** AuthService *)

Definition authorizeUser (token_reply : http_reply) (code : value) : M exchange value :=
  async
    (try_catch
       (let* _ := emit (AxiosPost token_url code) in
        let* response := await (axios_settle token_reply) in
        lift (get_property response "data"))
       (fun error => throw (HttpError error))).

(** *** AuthController *)

Definition authorize (token_reply : http_reply) (code : value) : M exchange value :=
  async
    (try_catch
       (let* promise := authorizeUser token_reply code in
        let* user := await promise in
        let* _ := modify (set_session_user user) in
        emit (Redirect "/home"))
       (fun error => emit (Next (convertToHttpError error)))).

(** *** ResourceService *)

Definition fetchProfile (graphql_reply : result value) (user : value) : M exchange value :=
  async
    (try_catch
       (let* access_token := lift (get_property user "access_token") in
        let* id_token := lift (get_property user "id_token") in
        let* userPayload := lift (jwtDecode id_token) in
        let* _ := emit (GraphQLRequest access_token lastActivity_query) in
        let* response := await (graphql_settle graphql_reply) in
        let* sub := lift (get_property userPayload "sub") in
        let* email := lift (get_property userPayload "email") in
        let* preferred_username := lift (get_property userPayload "preferred_username") in
        let* name := lift (get_property userPayload "name") in
        let* picture := lift (get_property userPayload "picture") in
        let* currentUser := lift (get_property response "currentUser") in
        let* lastActivityOn := lift (get_property currentUser "lastActivityOn") in
        ret (VObject [("id", sub); ("email", email); ("username", preferred_username);
                      ("name", name); ("avatar", picture);
                      ("lastActivityOn", lastActivityOn)]))
       (fun error => throw (HttpError error))).

Definition totalActivities : Z := 120.

(** [fetchActivities(user, page = 1, limit = 20)]: an argument that is
    [undefined] ([None]) takes its default. *)
Definition fetchActivities (events_reply : http_reply) (user : value)
    (page limit : option number) : M exchange value :=
  let page := default (Finite 1) page in
  let limit := default (Finite 20) limit in
  async
    (try_catch
       (let totalPages := ceil_div totalActivities limit in
        let* access_token := lift (get_property user "access_token") in
        let* _ := emit (AxiosGet events_url limit
                          (if number_le page totalPages then page else totalPages)
                          access_token) in
        let* response := await (axios_settle events_reply) in
        let* data := lift (get_property response "data") in
        ret (VObject [("activities", data); ("page", VNumber page);
                      ("totalPages", VNumber totalPages); ("limit", VNumber limit)]))
       (fun error => throw (HttpError error))).

Definition fetchGroups (graphql_reply : result value) (user : value) : M exchange value :=
  async
    (try_catch
       (let* access_token := lift (get_property user "access_token") in
        let* _ := emit (GraphQLRequest access_token groups_query) in
        let* response := await (graphql_settle graphql_reply) in
        let* currentUser := lift (get_property response "currentUser") in
        lift (get_property currentUser "groups"))
       (fun error => throw (HttpError error))).

(** *** ResourceController *)

Definition profile (graphql_reply : result value) : M exchange value :=
  async
    (try_catch
       (let* user := gets session_user in
        let* profile := fetchProfile graphql_reply user in
        emit (Render "profile" profile))
       (fun error => emit (Next (convertToHttpError error)))).

Definition activities (events_reply : http_reply) : M exchange value :=
  async
    (try_catch
       (let* user := gets session_user in
        let* page := gets (fun x => parseInt (query x !! "page")) in
        let* limit := gets (fun x => parseInt (query x !! "limit")) in
        let* activities := fetchActivities events_reply user (Some page) (Some limit) in
        emit (Render "activities" activities))
       (fun error => emit (Next (convertToHttpError error)))).

Definition groups (graphql_reply : result value) : M exchange value :=
  async
    (try_catch
       (let* user := gets session_user in
        let* groups := fetchGroups graphql_reply user in
        emit (Render "groups" (VObject [("groups", groups)])))
       (fun error => emit (Next (convertToHttpError error)))).

End Application.

(** ** Routes, the authentication gate and the error responder *)

(** The routes of [router], [resourceRouter] and [authRouter], as express
    matches a GET request against them; any other request falls through to
    the catch-all route with its original URL. *)
Inductive route : Type :=
| GetIndex
| GetHome
| GetProfile
| GetActivities
| GetGroups
| GetAuth
| GetAuthCallback
| Unmatched (originalUrl : string).

(** What the provider would answer to each kind of call. *)
Record provider : Type := {
  token_reply : http_reply;
  events_reply : http_reply;
  graphql_reply : result value
}.

Section Routing.

Variable HttpError : value -> value.
Variable convertToHttpError : value -> value.
Variable jwtDecode : value -> result value.

(** [process.env]: a variable is set to a string or is undefined. *)
Variable process_env : string -> option string.

(** *** AuthController.login *)

Definition authorize_location : string :=
  ToString_param (process_env "SERVICE_PROVIDER_OAUTH_URL")
  +:+ "/authorize?client_id=" +:+ ToString_param (process_env "CLIENT_ID")
  +:+ "&redirect_uri=" +:+ ToString_param (process_env "REDIRECT_URI")
  +:+ "&response_type=" +:+ ToString_param (process_env "RESPONSE_TYPE")
  +:+ "&state=" +:+ ToString_param (process_env "STATE")
  +:+ "&scope=" +:+ ToString_param (process_env "SCOPE").

Definition login : M exchange value :=
  async
    (try_catch
       (emit (Redirect authorize_location))
       (fun error => emit (Next (convertToHttpError error)))).

(** *** ResourceController.index and ResourceController.home *)

Definition index : M exchange value :=
  async
    (try_catch
       (emit (Render "index" VUndefined))
       (fun error => emit (Next (convertToHttpError error)))).

Definition home : M exchange value :=
  async
    (try_catch
       (emit (Render "home" VUndefined))
       (fun error => emit (Next (convertToHttpError error)))).

(** *** The authentication gate

    [authenticate(req, res, next)]; [next] is the continuation that express
    hands to the middleware. *)
Definition authenticate (next : value -> M exchange value) : M exchange value :=
  async
    (try_catch
       (let* user := gets session_user in
        if truthy user then
          let* _ := next VUndefined in ret VUndefined
        else
          let* _ := modify (set_session_user VNull) in
          emit (Redirect "/"))
       (fun error => let* _ := next (convertToHttpError error) in ret VUndefined)).

(** Leaving the router with [next(error)], towards the error responder. *)
Definition leave_router (error : value) : M exchange value := emit (Next error).

(** [router.route(path).get(authenticate, handler)]: the handler runs when
    the gate calls [next()] without an error; an error skips it. *)
Definition behind_gate (handler : M exchange value) : M exchange value :=
  authenticate (fun error => if truthy error then leave_router error else handler).

(** The catch-all route of [router]. *)
Definition not_found (originalUrl : string) : M exchange value :=
  leave_router
    (HttpError
       (VObject [("message", VString "The requested resource was not found.");
                 ("status", VNumber (Finite 404));
                 ("data", VObject [("url", VString originalUrl)])])).

(** [req.query.code] *)
Definition query_code (x : exchange) : value :=
  match query x !! "code" with
  | Some code => VString code
  | None => VUndefined
  end.

(** The handler chain that each route runs.  The controllers are the ones
    that the container of inversify.config.js is set up to hand out;
    obtaining them from it is left out. *)
Definition router (p : provider) (r : route) : M exchange value :=
  match r with
  | GetIndex => index
  | GetHome => behind_gate home
  | GetProfile =>
      behind_gate (profile HttpError convertToHttpError jwtDecode (graphql_reply p))
  | GetActivities =>
      behind_gate (activities HttpError convertToHttpError (events_reply p))
  | GetGroups =>
      behind_gate (groups HttpError convertToHttpError (graphql_reply p))
  | GetAuth => login
  | GetAuthCallback =>
      let* code := gets query_code in
      authorize HttpError convertToHttpError (token_reply p) code
  | Unmatched originalUrl => not_found originalUrl
  end.

End Routing.

(** *** The error responder of the application

    The error is an object, given by its properties; an assignment to a
    property replaces it or adds it. *)
Fixpoint set_property (k : string) (v : value) (fields : list (string * value))
    : list (string * value) :=
  match fields with
  | [] => [(k, v)]
  | (k', v') :: rest =>
      if String.eqb k k' then (k, v) :: rest else (k', v') :: set_property k v rest
  end.

(** [res.status(status).json(body)] *)
Inductive json_response : Type :=
| Json (status : value) (body : value).

(** [http.STATUS_CODES[500]] *)
Definition STATUS_CODES_500 : string := "Internal Server Error".

(** The error handler of the application; [production] is
    [process.env.NODE_ENV === 'production'] and [decycle] the copy made by
    [JSON.decycle]. *)
Definition error_responder (production : bool) (decycle : value -> value)
    (err : list (string * value)) : json_response :=
  if production then
    let err :=
      if negb (truthy (assoc "status" err)) then
        set_property "message" (VString STATUS_CODES_500)
          (set_property "status" (VNumber (Finite 500)) err)
      else err in
    Json (assoc "status" err) (VObject [("error", assoc "message" err)])
  else
    let status := assoc "status" err in
    Json (if truthy status then status else VNumber (Finite 500)) (decycle (VObject err)).

(** * Vocabulary of the properties *)

(** ** States of the container before and after a resolution

    [extends st st'] relates the state before a call of [resolve] with the
    state after it: the registrations are the same, every cached singleton
    is still cached, every truthy scoped instance is still stored, and the
    two counters did not go back. *)
Definition extends (st st' : state) : Prop :=
  services st' = services st
  /\ (forall n v, singletons st !! n = Some v -> singletons st' !! n = Some v)
  /\ (forall r k, truthy (httpContext_get (Some r) k st) = true ->
        httpContext_get (Some r) k st' = httpContext_get (Some r) k st)
  /\ next_id st <= next_id st'
  /\ constructions st <= constructions st'.

(** Code that runs in the request [request] writes to no other request's
    store. *)
Definition confined (request : option nat) (st st' : state) : Prop :=
  forall r, request <> Some r -> httpContext st' !! r = httpContext st !! r.

Definition step (request : option nat) (st st' : state) : Prop :=
  extends st st' /\ confined request st st'.

(** A computation is [monotone] in a request when every run of it is such a
    step. *)
Definition monotone {A} (request : option nat) (m : M state A) : Prop :=
  forall st, step request st (m st).2.

(** A history of further resolutions, each with its own stack budget,
    ambient request and name; their results are dropped. *)
Fixpoint resolve_each (calls : list (nat * option nat * string)) (st : state) : state :=
  match calls with
  | [] => st
  | (fuel, request, name) :: rest =>
      resolve_each rest (resolve fuel request name st).2
  end.

(** A constructor body that never returns an object of its own, so that
    [new] yields the freshly allocated [this]. *)
Fixpoint returns_no_object (b : body) : Prop :=
  match b with
  | Return v => is_object v = false
  | Throw _ => True
  | Fresh k => forall id, returns_no_object (k id)
  | Resolve _ k => forall r, returns_no_object (k r)
  end.

(** The record that [register] stores for a definition. *)
Definition registered (d : definition) (deps : list string) (lifetime : ServiceLifetime)
    : Service :=
  {| service_definition := d; dependencies := deps; serviceLifetime := lifetime;
     isArrowFunction := is_arrow_function d |}.

(** ** Sample definitions *)

(** [class X { constructor (...) {} }] *)
Definition plain_class : definition :=
  Class (fun this args => Return VUndefined).

(** [c => c('store')]: a factory that hands out another service. *)
Definition alias_factory (target : string) : definition :=
  ArrowFunction "c => c('store')"
    (Resolve target (fun r =>
       match r with
       | Returns v => Return v
       | Throws e => Throw e
       end)).

(** [() => null] *)
Definition null_factory : definition :=
  ArrowFunction "() => null" (Return VNull).

(** [() => 'B'] *)
Definition constant_factory (s : string) : definition :=
  ArrowFunction "() => 'B'" (Return (VString s)).

(** ** Factory functions and the construction rule

    An arrow function of no or one parameter, on its source text: optional
    white space, then [()], [(x)] or [x] with optional white space inside
    the parentheses, then optional white space and the arrow.  What may
    stand for the parameter [x] is a parameter of the definition. *)
Fixpoint all_chars (p : ascii -> bool) (s : string) : bool :=
  match s with
  | EmptyString => true
  | String c r => p c && all_chars p r
  end.

Definition white_space (s : string) : Prop := all_chars is_space s = true.

Inductive parameter_list (parameter : string -> Prop) : string -> Prop :=
| no_parameter ws :
    white_space ws -> parameter_list parameter ("(" +:+ ws +:+ ")")
| parenthesised_parameter ws1 x ws2 :
    white_space ws1 -> parameter x -> white_space ws2 ->
    parameter_list parameter ("(" +:+ ws1 +:+ x +:+ ws2 +:+ ")")
| bare_parameter x :
    parameter x -> parameter_list parameter x.

Definition arrow_of (parameter : string -> Prop) (source : string) : Prop :=
  exists ws1 params ws2 rest,
    white_space ws1 /\ parameter_list parameter params /\ white_space ws2
    /\ source = ws1 +:+ params +:+ ws2 +:+ "=>" +:+ rest.

(** In the words of the source, the parameter is [\w+]: a non-empty run of
    letters, digits and underscores.  These are the arrow functions "with a
    single parameter (with or without parentheses) or no parameters" of the
    comment on [arrowFunctionRegex]. *)
Definition word (s : string) : Prop := s <> "" /\ all_chars is_word s = true.

Definition matches_arrow_pattern (source : string) : Prop := arrow_of word source.

Definition pattern_factory (d : definition) : Prop :=
  exists source fn, d = ArrowFunction source fn /\ matches_arrow_pattern source.

(** In the words of the specification, "a zero- or one-argument factory
    function": the parameter is any identifier of the language, made of
    letters, digits, [_] and [$] and not starting with a digit.  (Only arrow
    functions are counted; parameters with a default value and function
    expressions of one parameter would be further such factories.) *)
Definition is_identifier_start (c : ascii) : bool :=
  let n := nat_of_ascii c in
  (((65 <=? n) && (n <=? 90)) || ((97 <=? n) && (n <=? 122))
   || (n =? 95) || (n =? 36))%nat.

Definition is_identifier_part (c : ascii) : bool :=
  is_word c || (nat_of_ascii c =? 36)%nat.

Definition identifier (s : string) : Prop :=
  match s with
  | EmptyString => False
  | String c r => is_identifier_start c && all_chars is_identifier_part r = true
  end.

Definition zero_or_one_argument_arrow (source : string) : Prop :=
  arrow_of identifier source.

Definition factory_function (d : definition) : Prop :=
  exists source fn, d = ArrowFunction source fn /\ zero_or_one_argument_arrow source.

(** "Resolve each declared dependency name in order": every name resolves,
    each in the state its predecessor left, or the first one that throws
    ends the resolution. *)
Inductive resolved_in_order (resolver : string -> M state value)
  : list string -> state -> result (list value) -> state -> Prop :=
| in_order_done st :
    resolved_in_order resolver [] st (Returns []) st
| in_order_next name names st v st1 vs st2 :
    resolver name st = (Returns v, st1) ->
    resolved_in_order resolver names st1 (Returns vs) st2 ->
    resolved_in_order resolver (name :: names) st (Returns (v :: vs)) st2
| in_order_throws name names st e st1 :
    resolver name st = (Throws e, st1) ->
    resolved_in_order resolver (name :: names) st (Throws e) st1
| in_order_throws_later name names st v st1 e st2 :
    resolver name st = (Returns v, st1) ->
    resolved_in_order resolver names st1 (Throws e) st2 ->
    resolved_in_order resolver (name :: names) st (Throws e) st2.

(** "Invoke it with the resolver as the single argument": the body of the
    function is carried out; what it returns or throws is the outcome; an
    object it creates takes the next free identity; and each call of its
    argument with a name is answered by the resolver, in the state the body
    has reached, before the body goes on with the answer. *)
Inductive invoked (resolver : string -> M state value)
  : body -> state -> result value -> state -> Prop :=
| invoked_returns v st :
    invoked resolver (Return v) st (Returns v) st
| invoked_throws e st :
    invoked resolver (Throw e) st (Throws e) st
| invoked_creates k st r st' :
    invoked resolver (k (next_id st)) (allocate st) r st' ->
    invoked resolver (Fresh k) st r st'
| invoked_calls_resolver name k st answer st1 r st' :
    resolver name st = (answer, st1) ->
    invoked resolver (k answer) st1 r st' ->
    invoked resolver (Resolve name k) st r st'.

(** "Invoke the definition as a constructor with those resolved values as
    positional arguments": [new] creates the object, the constructor's body
    is carried out on it and on the list of arguments, and the outcome is
    the new object, unless the body returns an object of its own or throws;
    applied to what is no constructor, [new] throws a TypeError. *)
Inductive invoked_as_constructor (resolver : string -> M state value)
    (d : definition) (args : list value) (st : state)
  : result value -> state -> Prop :=
| constructor_yields_new_object ctor v st' :
    d = Class ctor ->
    invoked resolver (ctor (VInstance (next_id st)) args) (allocate st) (Returns v) st' ->
    is_object v = false ->
    invoked_as_constructor resolver d args st (Returns (VInstance (next_id st))) st'
| constructor_yields_own_object ctor v st' :
    d = Class ctor ->
    invoked resolver (ctor (VInstance (next_id st)) args) (allocate st) (Returns v) st' ->
    is_object v = true ->
    invoked_as_constructor resolver d args st (Returns v) st'
| constructor_throws ctor e st' :
    d = Class ctor ->
    invoked resolver (ctor (VInstance (next_id st)) args) (allocate st) (Throws e) st' ->
    invoked_as_constructor resolver d args st (Throws e) st'
| not_a_constructor :
    (forall ctor, d <> Class ctor) ->
    invoked_as_constructor resolver d args st
      (Throws (VError "TypeError" "service.definition is not a constructor")) st.

(** The construction rule, for a given reading [factory] of "factory
    function": "if the definition is a factory function, invoke it with the
    resolver as the single argument; otherwise resolve each declared
    dependency name in order and invoke the definition as a constructor
    with those resolved values as positional arguments." *)
Inductive constructed (factory : definition -> Prop)
    (resolver : string -> M state value) (d : definition)
    (deps : list string) (st : state) : result value -> state -> Prop :=
| constructed_by_factory source fn r st' :
    factory d ->
    d = ArrowFunction source fn ->
    invoked resolver fn st r st' ->
    constructed factory resolver d deps st r st'
| constructed_by_constructor args st1 r st' :
    ~ factory d ->
    resolved_in_order resolver deps st (Returns args) st1 ->
    invoked_as_constructor resolver d args st1 r st' ->
    constructed factory resolver d deps st r st'
| not_constructed e st' :
    ~ factory d ->
    resolved_in_order resolver deps st (Throws e) st' ->
    constructed factory resolver d deps st (Throws e) st'.

(** [$c => 'made']: a factory with one parameter whose name starts with a
    dollar sign. *)
Definition dollar_factory : definition :=
  ArrowFunction "$c => 'made'" (Return (VString "made")).

(** ** Requests and their effects *)

(** The token endpoint answered with a 2xx status. *)
Definition exchange_succeeds (reply : http_reply) : bool :=
  match reply with
  | Response status _ => ((200 <=? status) && (status <? 300))%Z
  | NetworkError _ => false
  end.

Definition token_payload (reply : http_reply) : value :=
  match reply with
  | Response _ data => data
  | NetworkError _ => VUndefined
  end.

Definition is_next (e : effect) : bool :=
  match e with
  | Next _ => true
  | _ => false
  end.

(** A computation is [quiet] when it only adds effects that are not a call
    of [next], and leaves the session and the query alone. *)
Definition quiet {A} (m : M exchange A) : Prop :=
  forall x, exists calls,
    emitted (m x).2 = emitted x ++ calls
    /\ forallb (fun e => negb (is_next e)) calls = true
    /\ session_user (m x).2 = session_user x
    /\ query (m x).2 = query x.

(** What a controller action that passes the service's promise on to the
    view does: some outbound calls, none of them a call of [next], and then
    the rendering of [view] with locals built from a promise. *)
Definition renders_promise (view : string) (wrap : value -> value)
    (x x' : exchange) : Prop :=
  exists calls fulfilled payload,
    emitted x' = emitted x ++ calls ++ [Render view (wrap (VPromise fulfilled payload))]
    /\ forallb (fun e => negb (is_next e)) calls = true.

(** The page sent to the events endpoint, and the view model returned. *)
Definition queried_page (page limit : number) : number :=
  let totalPages := ceil_div totalActivities limit in
  if number_le page totalPages then page else totalPages.

Definition activities_view (data : value) (page limit : number) : value :=
  VObject [("activities", data); ("page", VNumber page);
           ("totalPages", VNumber (ceil_div totalActivities limit));
           ("limit", VNumber limit)].

Definition with_effects (x : exchange) (new : list effect) : exchange :=
  {| session_user := session_user x; query := query x;
     emitted := emitted x ++ new |}.

(** ** Further vocabulary *)

(** An instance of the service is at hand for a resolution in [request]: a
    cached singleton, or a truthy instance in the store of the request. *)
Definition instance_at_hand (request : option nat) (name : string) (service : Service)
    (st : state) : bool :=
  match serviceLifetime service with
  | Singleton => singletons_has name st
  | Scoped => truthy (httpContext_get request (scoped_key name) st)
  | Transient => false
  end.

(** [dep] is registered as a singleton and its instance [v] is cached. *)
Definition cached_singleton (st : state) (dep : string) (v : value) : Prop :=
  exists service,
    services st !! dep = Some service
    /\ serviceLifetime service = Singleton
    /\ singletons st !! dep = Some v.

(** The effects that answer the request: a redirect, a rendered view, or the
    hand-over to the next stage. *)
Definition is_terminal (e : effect) : bool :=
  match e with
  | Redirect _ | Render _ _ | Next _ => true
  | AxiosPost _ _ | AxiosGet _ _ _ _ | GraphQLRequest _ _ => false
  end.

(** A computation that only calls the provider. *)
Definition outbound_only {A} (m : M exchange A) : Prop :=
  forall x, exists calls,
    (m x).2 = with_effects x calls
    /\ forallb (fun e => negb (is_terminal e)) calls = true.

(** A request is answered once: some calls of the provider, then exactly one
    terminal effect. *)
Definition answered_once (x x' : exchange) : Prop :=
  exists calls final,
    emitted x' = emitted x ++ calls ++ [final]
    /\ forallb (fun e => negb (is_terminal e)) calls = true
    /\ is_terminal final = true.

(** The routes behind the authentication gate. *)
Definition protected (r : route) : bool :=
  match r with
  | GetHome | GetProfile | GetActivities | GetGroups => true
  | _ => false
  end.

(** [undefined] or [null]. *)
Definition nullish (v : value) : bool :=
  match v with
  | VUndefined | VNull => true
  | _ => false
  end.

(** What can go wrong inside a service method: the provider rejects the
    call, the decoder of the ID token throws, or a property is read of one
    of the values [read] and that value is undefined or null. *)
Inductive original_error (answer : value) (decoded : option (result value))
    (read : list value) : value -> Prop :=
| provider_rejected e :
    answer = VPromise false e -> original_error answer decoded read e
| decoder_threw e :
    decoded = Some (Throws e) -> original_error answer decoded read e
| read_of_nothing v k e :
    In v read -> nullish v = true -> get_property v k = Throws e ->
    original_error answer decoded read e.

(** A service method settles: it returns a promise, and a rejection carries
    [wrap] applied to an error that comes from [origin]. *)
Definition settles_wrapping (wrap : value -> value) (origin : value -> Prop)
    (r : result value) : Prop :=
  exists fulfilled payload,
    r = Returns (VPromise fulfilled payload)
    /\ (fulfilled = false -> exists e, origin e /\ payload = wrap e).

(** The outcome of decoding the ID token of [user], when it can be read. *)
Definition decoded_token (jwtDecode : value -> result value) (user : value)
    : option (result value) :=
  match get_property user "id_token" with
  | Returns id_token => Some (jwtDecode id_token)
  | Throws _ => None
  end.

(** The values whose properties a method reads after decoding and after the
    provider's answer: the claims of the token; the data of the answer and
    its current user. *)
Definition claims_read (decoded : option (result value)) : list value :=
  match decoded with
  | Some (Returns claims) => [claims]
  | _ => []
  end.

Definition answer_read (graphql_reply : result value) : list value :=
  match graphql_reply with
  | Returns data =>
      data :: match get_property data "currentUser" with
              | Returns currentUser => [currentUser]
              | Throws _ => []
              end
  | Throws _ => []
  end.

(** The handler that a route ends with, the gate left aside. *)
Definition handler_of (HttpError convertToHttpError : value -> value)
    (jwtDecode : value -> result value) (process_env : string -> option string)
    (p : provider) (r : route) : M exchange value :=
  match r with
  | GetIndex => index convertToHttpError
  | GetHome => home convertToHttpError
  | GetProfile => profile HttpError convertToHttpError jwtDecode (graphql_reply p)
  | GetActivities => activities HttpError convertToHttpError (events_reply p)
  | GetGroups => groups HttpError convertToHttpError (graphql_reply p)
  | GetAuth => login convertToHttpError process_env
  | GetAuthCallback =>
      let* code := gets query_code in
      authorize HttpError convertToHttpError (token_reply p) code
  | Unmatched originalUrl => not_found HttpError originalUrl
  end.

(** The exchange after the gate has turned a request away. *)
Definition turned_away (x : exchange) : exchange :=
  {| session_user := VNull; query := query x; emitted := emitted x ++ [Redirect "/"] |}.

(** * Properties *)

(** ** What a resolution never undoes *)

Lemma extends_refl st : extends st st.
Proof. unfold extends; intuition. Qed.

Lemma extends_trans st1 st2 st3 :
  extends st1 st2 -> extends st2 st3 -> extends st1 st3.
Proof.
  intros (Hs & Hc & Hh & Hn & Hk) (Hs' & Hc' & Hh' & Hn' & Hk').
  repeat split.
  - congruence.
  - eauto.
  - intros r k Ht. rewrite <- (Hh r k Ht). apply Hh'. by rewrite (Hh r k Ht).
  - lia.
  - lia.
Qed.

Lemma extends_allocate st : extends st (allocate st).
Proof. unfold extends, allocate, httpContext_get; simpl; intuition. Qed.

Lemma extends_count_construction st : extends st (count_construction st).
Proof. unfold extends, count_construction, httpContext_get; simpl; intuition. Qed.

Lemma step_refl request st : step request st st.
Proof. split; [apply extends_refl | done]. Qed.

Lemma step_trans request st1 st2 st3 :
  step request st1 st2 -> step request st2 st3 -> step request st1 st3.
Proof.
  intros [He Hc] [He' Hc']. split; [by eapply extends_trans |].
  intros r Hr. rewrite (Hc' r Hr). by apply Hc.
Qed.

Lemma step_allocate request st : step request st (allocate st).
Proof. split; [apply extends_allocate | done]. Qed.

Lemma step_count_construction request st : step request st (count_construction st).
Proof. split; [apply extends_count_construction | done]. Qed.

Lemma monotone_ret {A} request (a : A) : monotone request (ret a).
Proof. intros st. apply step_refl. Qed.

Lemma monotone_throw {A} request e : monotone request (@throw state A e).
Proof. intros st. apply step_refl. Qed.

Lemma monotone_bind {A B} request (m : M state A) (k : A -> M state B) :
  monotone request m -> (forall a, monotone request (k a)) ->
  monotone request (bind m k).
Proof.
  intros Hm Hk st. unfold bind. specialize (Hm st).
  destruct (m st) as [[a|e] st1]; simpl in *; [|done].
  eapply step_trans; [exact Hm | apply Hk].
Qed.

Section Monotone.

Variable request : option nat.
Variable rec : string -> M state value.
Hypothesis rec_monotone : forall name, monotone request (rec name).

Lemma monotone_run b : monotone request (run rec b).
Proof.
  induction b as [v | e | k IH | name k IH]; intros st; simpl.
  - apply step_refl.
  - apply step_refl.
  - eapply step_trans; [apply step_allocate | apply IH].
  - pose proof (rec_monotone name st) as Hr.
    destruct (rec name st) as [r st1]. simpl in Hr.
    eapply step_trans; [exact Hr | apply IH].
Qed.

Lemma monotone_mapM names : monotone request (mapM rec names).
Proof.
  induction names as [| n names IH]; simpl.
  - apply monotone_ret.
  - apply monotone_bind; [apply rec_monotone | intros v].
    apply monotone_bind; [apply IH | intros vs; apply monotone_ret].
Qed.

Lemma monotone_call_definition d : monotone request (call_definition rec d).
Proof.
  destruct d; simpl; [apply monotone_throw | apply monotone_run | apply monotone_throw].
Qed.

Lemma monotone_new_definition d args : monotone request (new_definition rec d args).
Proof.
  destruct d as [ctor | |]; simpl; [| apply monotone_throw ..].
  intros st.
  pose proof (monotone_run (ctor (VInstance (next_id st)) args) (allocate st)) as Hr.
  destruct (run rec _ (allocate st)) as [[r|e] st1]; simpl in *;
    (eapply step_trans; [apply step_allocate | exact Hr]).
Qed.

Lemma monotone_createInstance service : monotone request (createInstance rec service).
Proof.
  unfold createInstance. apply monotone_bind.
  - intros st. apply step_count_construction.
  - intros _. destruct (isArrowFunction service).
    + apply monotone_call_definition.
    + apply monotone_bind; [apply monotone_mapM | intros; apply monotone_new_definition].
Qed.

End Monotone.

(** Reading the request-scoped store after a write. *)
Lemma httpContext_get_set_same r k v st :
  httpContext_get (Some r) k (httpContext_set (Some r) k v st) = v.
Proof.
  unfold httpContext_get, httpContext_set; simpl.
  rewrite lookup_insert_eq; simpl. by rewrite lookup_insert_eq.
Qed.

Lemma httpContext_get_set_other r k r0 k0 v st :
  (r, k) <> (r0, k0) ->
  httpContext_get (Some r) k (httpContext_set (Some r0) k0 v st)
  = httpContext_get (Some r) k st.
Proof.
  intros Hne. unfold httpContext_get, httpContext_set; simpl.
  destruct (decide (r = r0)) as [-> | Hr].
  - rewrite lookup_insert_eq; simpl.
    rewrite lookup_insert_ne; [done | congruence].
  - rewrite lookup_insert_ne; [done | congruence].
Qed.

(** Outside of a request nothing is ever found in the store. *)
Lemma httpContext_get_outside k st : httpContext_get None k st = VUndefined.
Proof. reflexivity. Qed.

(** Two services never share a key of the request-scoped store. *)
Lemma scoped_key_inj n m : scoped_key n = scoped_key m -> n = m.
Proof. unfold scoped_key. intros H. by simplify_eq/=. Qed.

Lemma singletons_has_true name st :
  singletons_has name st = true <-> is_Some (singletons st !! name).
Proof. unfold singletons_has. apply bool_decide_eq_true. Qed.

Lemma singletons_has_false name st :
  singletons_has name st = false <-> singletons st !! name = None.
Proof.
  unfold singletons_has. rewrite bool_decide_eq_false.
  by rewrite eq_None_not_Some.
Qed.

Section MonotoneLifetimes.

Variable request : option nat.
Variable rec : string -> M state value.
Hypothesis rec_monotone : forall name, monotone request (rec name).

Lemma monotone_resolveSingletonInstance service name :
  monotone request (resolveSingletonInstance rec service name).
Proof.
  intros st. unfold resolveSingletonInstance, bind, gets, modify, ret; simpl.
  destruct (singletons_has name st) eqn:Hhas; simpl; [apply step_refl |].
  apply singletons_has_false in Hhas.
  pose proof (monotone_createInstance request rec rec_monotone service st) as Hc.
  destruct (createInstance rec service st) as [[i|e] st1]; simpl in *; [| done].
  destruct Hc as [(Hs & Hc & Hh & Hn & Hk) Hi].
  split; [| exact Hi].
  repeat split; simpl; try done.
  intros n v Hv. rewrite lookup_insert_ne; [eauto | congruence].
Qed.

Lemma monotone_resolveScopedInstance service name :
  monotone request (resolveScopedInstance rec request service name).
Proof.
  intros st. unfold resolveScopedInstance, bind, gets, modify, ret; simpl.
  destruct (truthy (httpContext_get request (scoped_key name) st)) eqn:Ht; simpl;
    [apply step_refl |].
  pose proof (monotone_createInstance request rec rec_monotone service st) as Hc.
  destruct (createInstance rec service st) as [[i|e] st1]; simpl in *; [| done].
  destruct Hc as [(Hs & Hc & Hh & Hn & Hk) Hi].
  destruct request as [r0|]; [| by repeat split].
  split.
  - split; [exact Hs |]. split; [exact Hc |]. split; [| by split].
    intros r k Hrk.
    rewrite httpContext_get_set_other; [by apply Hh |].
    intros [= -> ->]. congruence.
  - intros r Hr. unfold httpContext_set; simpl.
    rewrite lookup_insert_ne; [by apply Hi | congruence].
Qed.

End MonotoneLifetimes.

Lemma monotone_resolve fuel request name :
  monotone request (resolve fuel request name).
Proof.
  revert name. induction fuel as [| fuel IH]; intros name; simpl.
  - apply monotone_throw.
  - intros st. unfold bind, gets; simpl.
    destruct (services st !! name) as [service|]; [| apply step_refl].
    destruct (serviceLifetime service).
    + by apply monotone_resolveScopedInstance.
    + by apply monotone_resolveSingletonInstance.
    + by apply monotone_createInstance.
Qed.

Lemma resolve_extends fuel request name st :
  extends st (resolve fuel request name st).2.
Proof. apply monotone_resolve. Qed.

(** Every construction is counted, whatever it then does. *)
Lemma createInstance_counts request rec service st :
  (forall name, monotone request (rec name)) ->
  constructions st < constructions (createInstance rec service st).2.
Proof.
  intros Hrec. unfold createInstance, bind, modify; simpl.
  set (st0 := count_construction st).
  assert (Hstep : forall m : M state value, monotone request m ->
            constructions st < constructions (m st0).2).
  { intros m Hm. destruct (Hm st0) as [(_ & _ & _ & _ & Hk) _].
    unfold st0 in Hk at 1. simpl in Hk. lia. }
  destruct (isArrowFunction service).
  - apply Hstep. by apply monotone_call_definition.
  - apply (Hstep (bind (mapM rec (dependencies service))
                    (new_definition rec (service_definition service)))).
    apply monotone_bind; [by apply monotone_mapM | intros; by apply monotone_new_definition].
Qed.

Lemma resolve_each_extends calls st : extends st (resolve_each calls st).
Proof.
  revert st. induction calls as [| [[fuel request] name] calls IH]; intros st; simpl.
  - apply extends_refl.
  - eapply extends_trans; [apply resolve_extends | apply IH].
Qed.

(** ** Unregistered names *)

(** C8. Resolving a name that has no registration fails: whatever the stack
    budget the call throws and leaves the state as it was, and as soon as the
    call can run at all the exception is the error
    "Service '<name>' not found."; no value, so neither null nor undefined,
    is returned. *)
Theorem resolve_unregistered_throws (request : option nat) (name : string) (st : state) :
  services st !! name = None ->
  (forall fuel,
     resolve (S fuel) request name st
     = (Throws (VError "Error" ("Service '" +:+ name +:+ "' not found.")), st))
  /\ (forall fuel v st', resolve fuel request name st <> (Returns v, st')).
Proof.
  intros Hnone.
  assert (Hthrow : forall fuel,
            resolve (S fuel) request name st
            = (Throws (VError "Error" ("Service '" +:+ name +:+ "' not found.")), st)).
  { intros fuel. simpl. unfold bind, gets. by rewrite Hnone. }
  split; [exact Hthrow |].
  intros [| fuel] v st'; [done |]. by rewrite Hthrow.
Qed.

Lemma resolve_unregistered_throws_witness :
  resolve 1 None "AuthService" IoCContainer_new
  = (Throws (VError "Error" "Service 'AuthService' not found."), IoCContainer_new).
Proof.
  apply (proj1 (resolve_unregistered_throws None "AuthService" IoCContainer_new
                  (lookup_empty "AuthService")) 0).
Defined.

(** ** Singleton lifetime *)

Lemma resolve_singleton fuel request name service st :
  services st !! name = Some service ->
  serviceLifetime service = Singleton ->
  resolve (S fuel) request name st
  = resolveSingletonInstance (resolve fuel request) service name st.
Proof. intros Hsvc Hlife. simpl. unfold bind at 1, gets at 1. by rewrite Hsvc, Hlife. Qed.

(** A cached instance is returned as it is, whatever it is. *)
Lemma resolve_singleton_hit fuel request name service st v :
  services st !! name = Some service ->
  serviceLifetime service = Singleton ->
  singletons st !! name = Some v ->
  resolve (S fuel) request name st = (Returns v, st).
Proof.
  intros Hsvc Hlife Hv. rewrite (resolve_singleton _ _ _ _ _ Hsvc Hlife).
  unfold resolveSingletonInstance, bind, gets, modify, ret; simpl.
  assert (Hhas : singletons_has name st = true).
  { apply singletons_has_true. by eexists. }
  rewrite Hhas. simpl. unfold singletons_get. by rewrite Hv.
Qed.

(** A resolution that returns has the instance in the cache afterwards, and
    has constructed it when the cache had none. *)
Lemma resolve_singleton_caches fuel request name service st v st1 :
  services st !! name = Some service ->
  serviceLifetime service = Singleton ->
  resolve fuel request name st = (Returns v, st1) ->
  singletons st1 !! name = Some v
  /\ (singletons st !! name = None -> constructions st < constructions st1).
Proof.
  intros Hsvc Hlife Hres.
  destruct fuel as [| fuel]; [done |].
  rewrite (resolve_singleton _ _ _ _ _ Hsvc Hlife) in Hres.
  unfold resolveSingletonInstance, bind, gets, modify, ret in Hres; simpl in Hres.
  destruct (singletons_has name st) eqn:Hhas; simpl in Hres.
  - apply singletons_has_true in Hhas as [w Hw].
    injection Hres as <- <-. unfold singletons_get. rewrite Hw. simpl.
    split; [done | congruence].
  - pose proof (createInstance_counts request (resolve fuel request) service st
                  (monotone_resolve fuel request)) as Hcount.
    destruct (createInstance (resolve fuel request) service st) as [[i|e] st'];
      simpl in *; [| done].
    injection Hres as <- <-. unfold singletons_get; simpl.
    rewrite lookup_insert_eq. simpl. by split.
Qed.

(** C7. A service registered as a singleton resolves to one and the same
    instance every time.  Once a resolution of [name] has returned [v], that
    instance is cached under [name]; it was constructed by that resolution
    when nothing was cached before; and after any history of further
    resolutions, resolving [name] again returns [v] and changes nothing (so
    nothing is constructed again). *)
Theorem singleton_resolves_to_cached_instance
    (fuel : nat) (request : option nat) (name : string) (service : Service)
    (st st1 : state) (v : value) :
  services st !! name = Some service ->
  serviceLifetime service = Singleton ->
  resolve fuel request name st = (Returns v, st1) ->
  singletons st1 !! name = Some v
  /\ (singletons st !! name = None -> constructions st < constructions st1)
  /\ (forall calls fuel' request',
        let st2 := resolve_each calls st1 in
        resolve (S fuel') request' name st2 = (Returns v, st2)).
Proof.
  intros Hsvc Hlife Hres.
  destruct (resolve_singleton_caches _ _ _ _ _ _ _ Hsvc Hlife Hres) as [Hcached Hcount].
  split; [exact Hcached |]. split; [exact Hcount |].
  intros calls fuel' request' st2.
  assert (Hext : extends st st1).
  { pose proof (resolve_extends fuel request name st) as H. by rewrite Hres in H. }
  destruct (resolve_each_extends calls st1) as (Hs2 & Hc2 & _).
  destruct Hext as (Hs1 & _).
  fold st2 in Hs2, Hc2.
  apply (resolve_singleton_hit _ _ _ service); [by rewrite Hs2, Hs1 | done | by apply Hc2].
Qed.

(** ** Scoped lifetime *)

Lemma resolve_scoped fuel request name service st :
  services st !! name = Some service ->
  serviceLifetime service = Scoped ->
  resolve (S fuel) request name st
  = resolveScopedInstance (resolve fuel request) request service name st.
Proof. intros Hsvc Hlife. simpl. unfold bind at 1, gets at 1. by rewrite Hsvc, Hlife. Qed.

(** A truthy stored instance is returned as it is ... *)
Lemma resolveScopedInstance_stored rec request service name st :
  truthy (httpContext_get request (scoped_key name) st) = true ->
  resolveScopedInstance rec request service name st
  = (Returns (httpContext_get request (scoped_key name) st), st).
Proof.
  intros Ht. unfold resolveScopedInstance, bind, gets, ret; simpl. by rewrite Ht.
Qed.

(** ... and anything else stored (nothing, or a falsy value) leads to a
    construction, whose result is stored when it returns. *)
Lemma resolveScopedInstance_constructs rec request service name st :
  truthy (httpContext_get request (scoped_key name) st) = false ->
  resolveScopedInstance rec request service name st
  = match createInstance rec service st with
    | (Returns i, st') => (Returns i, httpContext_set request (scoped_key name) i st')
    | (Throws e, st') => (Throws e, st')
    end.
Proof.
  intros Ht. unfold resolveScopedInstance, bind, gets, modify, ret; simpl. rewrite Ht; simpl.
  by destruct (createInstance rec service st) as [[i|e] st'].
Qed.

(** ** Falsy instances *)

(** C10. The two caches treat a falsy instance differently.
    Scoped:
    (1) a resolution that returns a falsy value has constructed it and
        stored it in the request's store;
    (2) whenever the store of the request holds a falsy value for the
        service (or nothing), a resolution in that request is a run of
        [createInstance] followed by storing its result, so it constructs;
    (3) hence, after a resolution has returned a falsy value, the next
        resolution in the same request constructs again.
    Singleton:
    (4) when nothing is cached and the construction yields a falsy value,
        the resolution is that one construction followed by caching the
        value: it returns the value, and the state it leaves is the one the
        construction left with the value in the cache; after any history
        of further resolutions, a resolution returns the cached falsy
        value and leaves the state, and with it the count of
        constructions, as it is;
    (5) whatever was cached before, a resolution that returns a falsy
        value leaves it in the cache, has constructed it when nothing was
        cached, and every later resolution returns it and changes
        nothing. *)
Theorem falsy_instance_scoped_versus_singleton :
  (forall fuel r name service st v st1,
      services st !! name = Some service ->
      serviceLifetime service = Scoped ->
      resolve fuel (Some r) name st = (Returns v, st1) ->
      falsy v = true ->
      constructions st < constructions st1
      /\ httpContext_get (Some r) (scoped_key name) st1 = v)
  /\ (forall fuel r name service st,
      services st !! name = Some service ->
      serviceLifetime service = Scoped ->
      falsy (httpContext_get (Some r) (scoped_key name) st) = true ->
      resolve (S fuel) (Some r) name st
      = match createInstance (resolve fuel (Some r)) service st with
        | (Returns i, st') =>
            (Returns i, httpContext_set (Some r) (scoped_key name) i st')
        | (Throws e, st') => (Throws e, st')
        end
      /\ constructions st < constructions (resolve (S fuel) (Some r) name st).2)
  /\ (forall fuel fuel' r name service st v st1,
      services st !! name = Some service ->
      serviceLifetime service = Scoped ->
      resolve fuel (Some r) name st = (Returns v, st1) ->
      falsy v = true ->
      resolve (S fuel') (Some r) name st1
      = match createInstance (resolve fuel' (Some r)) service st1 with
        | (Returns i, st') =>
            (Returns i, httpContext_set (Some r) (scoped_key name) i st')
        | (Throws e, st') => (Throws e, st')
        end
      /\ constructions st1 < constructions (resolve (S fuel') (Some r) name st1).2)
  /\ (forall fuel request name service st v sa,
      services st !! name = Some service ->
      serviceLifetime service = Singleton ->
      singletons st !! name = None ->
      createInstance (resolve fuel request) service st = (Returns v, sa) ->
      falsy v = true ->
      let st1 := singletons_set name v sa in
      resolve (S fuel) request name st = (Returns v, st1)
      /\ singletons st1 !! name = Some v
      /\ constructions st < constructions st1
      /\ forall calls fuel' request',
           let st2 := resolve_each calls st1 in
           resolve (S fuel') request' name st2 = (Returns v, st2)
           /\ constructions (resolve (S fuel') request' name st2).2 = constructions st2)
  /\ (forall fuel request name service st v st1,
      services st !! name = Some service ->
      serviceLifetime service = Singleton ->
      resolve fuel request name st = (Returns v, st1) ->
      falsy v = true ->
      singletons st1 !! name = Some v
      /\ (singletons st !! name = None -> constructions st < constructions st1)
      /\ forall calls fuel' request',
           let st2 := resolve_each calls st1 in
           resolve (S fuel') request' name st2 = (Returns v, st2)
           /\ constructions (resolve (S fuel') request' name st2).2 = constructions st2).
Proof.
  assert (Hconstructs : forall fuel r name service st,
      services st !! name = Some service ->
      serviceLifetime service = Scoped ->
      truthy (httpContext_get (Some r) (scoped_key name) st) = false ->
      resolve (S fuel) (Some r) name st
      = match createInstance (resolve fuel (Some r)) service st with
        | (Returns i, st') =>
            (Returns i, httpContext_set (Some r) (scoped_key name) i st')
        | (Throws e, st') => (Throws e, st')
        end
      /\ constructions st < constructions (resolve (S fuel) (Some r) name st).2).
  { intros fuel r name service st Hsvc Hlife Ht.
    rewrite (resolve_scoped _ _ _ _ _ Hsvc Hlife).
    rewrite (resolveScopedInstance_constructs _ _ _ _ _ Ht).
    split; [done |].
    pose proof (createInstance_counts (Some r) (resolve fuel (Some r)) service st
                  (monotone_resolve fuel (Some r))) as Hcount.
    by destruct (createInstance _ service st) as [[i|e] st']. }
  assert (Hstored : forall fuel r name service st v st1,
      services st !! name = Some service ->
      serviceLifetime service = Scoped ->
      resolve fuel (Some r) name st = (Returns v, st1) ->
      falsy v = true ->
      constructions st < constructions st1
      /\ httpContext_get (Some r) (scoped_key name) st1 = v).
  { intros fuel r name service st v st1 Hsvc Hlife Hres Hfalsy.
    destruct fuel as [| fuel]; [done |].
    destruct (truthy (httpContext_get (Some r) (scoped_key name) st)) eqn:Ht.
    - rewrite (resolve_scoped _ _ _ _ _ Hsvc Hlife) in Hres.
      rewrite (resolveScopedInstance_stored _ _ _ _ _ Ht) in Hres.
      injection Hres as Hv _. rewrite <- Hv in Hfalsy.
      unfold falsy, httpContext_get in *. by rewrite Ht in Hfalsy.
    - destruct (Hconstructs fuel r name service st Hsvc Hlife Ht) as [Heq Hcount].
      rewrite Hres in Hcount. simpl in Hcount. split; [exact Hcount |].
      rewrite Heq in Hres.
      destruct (createInstance _ service st) as [[i|e] st']; [| done].
      injection Hres as <- <-. apply httpContext_get_set_same. }
  assert (Hcached : forall fuel request name service st v st1,
      services st !! name = Some service ->
      serviceLifetime service = Singleton ->
      resolve fuel request name st = (Returns v, st1) ->
      singletons st1 !! name = Some v
      /\ (singletons st !! name = None -> constructions st < constructions st1)
      /\ forall calls fuel' request',
           let st2 := resolve_each calls st1 in
           resolve (S fuel') request' name st2 = (Returns v, st2)
           /\ constructions (resolve (S fuel') request' name st2).2 = constructions st2).
  { intros fuel request name service st v st1 Hsvc Hlife Hres.
    destruct (resolve_singleton_caches _ _ _ _ _ _ _ Hsvc Hlife Hres) as [Hin Hcount].
    split; [exact Hin |]. split; [exact Hcount |].
    intros calls fuel' request' st2.
    assert (Hext : extends st st1).
    { pose proof (resolve_extends fuel request name st) as H. by rewrite Hres in H. }
    destruct (resolve_each_extends calls st1) as (Hs2 & Hc2 & _).
    destruct Hext as (Hs1 & _).
    fold st2 in Hs2, Hc2.
    assert (Hhit : resolve (S fuel') request' name st2 = (Returns v, st2)).
    { apply (resolve_singleton_hit _ _ _ service);
        [by rewrite Hs2, Hs1 | done | by apply Hc2]. }
    by rewrite Hhit. }
  split; [exact Hstored |]. split; [| split; [| split]].
  - intros fuel r name service st Hsvc Hlife Hfalsy.
    apply Hconstructs; [done | done |].
    unfold falsy in Hfalsy. by apply negb_true_iff in Hfalsy.
  - intros fuel fuel' r name service st v st1 Hsvc Hlife Hres Hfalsy.
    destruct (Hstored _ _ _ _ _ _ _ Hsvc Hlife Hres Hfalsy) as [_ Hslot].
    assert (Hext : extends st st1).
    { pose proof (resolve_extends fuel (Some r) name st) as H. by rewrite Hres in H. }
    destruct Hext as (Hs1 & _).
    apply Hconstructs; [by rewrite Hs1 | done |].
    rewrite Hslot. unfold falsy in Hfalsy. by apply negb_true_iff in Hfalsy.
  - intros fuel request name service st v sa Hsvc Hlife Hnone Hcreate _ st1.
    assert (Hres : resolve (S fuel) request name st = (Returns v, st1)).
    { rewrite (resolve_singleton _ _ _ _ _ Hsvc Hlife).
      unfold resolveSingletonInstance, bind, gets, modify, ret; simpl.
      rewrite (proj2 (singletons_has_false name st) Hnone). simpl. rewrite Hcreate.
      unfold singletons_get, st1; simpl. by rewrite lookup_insert_eq. }
    destruct (Hcached _ _ _ _ _ _ _ Hsvc Hlife Hres) as (Hin & Hcount & Hlater).
    split; [exact Hres |]. split; [exact Hin |]. split; [by apply Hcount | exact Hlater].
  - intros fuel request name service st v st1 Hsvc Hlife Hres _.
    by apply (Hcached fuel request name service st).
Qed.

(** ** Scoped instances, request by request *)

Lemma run_returns_no_object rec b st r st' :
  returns_no_object b -> run rec b st = (Returns r, st') -> is_object r = false.
Proof.
  revert st. induction b as [v | e | k IH | name k IH]; intros st Hplain Hrun; simpl in *.
  - unfold ret in Hrun. by injection Hrun as <- _.
  - done.
  - eapply IH; [apply Hplain | exact Hrun].
  - destruct (rec name st) as [r0 st0]. eapply IH; [apply Hplain | exact Hrun].
Qed.

(** [new] of such a class hands out an identity that was not in use before
    the construction and is in use after it. *)
Lemma createInstance_new_instance request rec service ctor st v st' :
  (forall name, monotone request (rec name)) ->
  isArrowFunction service = false ->
  service_definition service = Class ctor ->
  (forall this args, returns_no_object (ctor this args)) ->
  createInstance rec service st = (Returns v, st') ->
  exists id, v = VInstance id /\ next_id st <= id < next_id st'.
Proof.
  intros Hrec Harrow Hdef Hplain Hcreate.
  unfold createInstance, bind, modify in Hcreate; simpl in Hcreate.
  rewrite Harrow, Hdef in Hcreate.
  pose proof (monotone_mapM request rec Hrec (dependencies service)
                (count_construction st)) as [(_ & _ & _ & Hn & _) _].
  destruct (mapM rec (dependencies service) (count_construction st)) as [[args|e] sa];
    [| done].
  simpl in Hn, Hcreate.
  pose proof (monotone_run request rec Hrec (ctor (VInstance (next_id sa)) args)
                (allocate sa)) as [(_ & _ & _ & Hn' & _) _].
  destruct (run rec (ctor (VInstance (next_id sa)) args) (allocate sa))
    as [[r|e] sb] eqn:Hrun; [| done].
  simpl in Hn'. injection Hcreate as <- <-.
  rewrite (run_returns_no_object _ _ _ _ _ (Hplain _ _) Hrun).
  exists (next_id sa). split; [done | lia].
Qed.

(** C9 (as amended). For a service registered with scoped lifetime:
    (1) a resolution in one request writes to the store of no other request;
    (2) within a request, once a resolution has returned a truthy instance,
        every later resolution in that request returns that same instance
        and changes nothing, whatever was resolved in between;
    (3) when the definition is a class whose constructor returns no object
        of its own, the instances constructed for two distinct requests, in
        neither of which a truthy instance was stored, are distinct. *)
Theorem scoped_instance_per_request (name : string) (service : Service) :
  serviceLifetime service = Scoped ->
  (forall fuel r st r',
      services st !! name = Some service -> r' <> r ->
      httpContext (resolve fuel (Some r) name st).2 !! r' = httpContext st !! r')
  /\ (forall fuel r st v st1,
      services st !! name = Some service ->
      resolve fuel (Some r) name st = (Returns v, st1) ->
      truthy v = true ->
      forall calls fuel',
        let st2 := resolve_each calls st1 in
        resolve (S fuel') (Some r) name st2 = (Returns v, st2))
  /\ (forall ctor fuel1 fuel2 r1 r2 st v1 st1 v2 st2,
      service_definition service = Class ctor ->
      isArrowFunction service = false ->
      (forall this args, returns_no_object (ctor this args)) ->
      services st !! name = Some service ->
      r1 <> r2 ->
      truthy (httpContext_get (Some r1) (scoped_key name) st) = false ->
      truthy (httpContext_get (Some r2) (scoped_key name) st) = false ->
      resolve fuel1 (Some r1) name st = (Returns v1, st1) ->
      resolve fuel2 (Some r2) name st1 = (Returns v2, st2) ->
      v1 <> v2).
Proof.
  intros Hlife. split; [| split].
  - intros fuel r st r' _ Hne.
    destruct (monotone_resolve fuel (Some r) name st) as [_ Hconf].
    apply Hconf. congruence.
  - intros fuel r st v st1 Hsvc Hres Htruthy calls fuel' st2.
    assert (Hext : extends st st1).
    { pose proof (resolve_extends fuel (Some r) name st) as H. by rewrite Hres in H. }
    assert (Hstored : httpContext_get (Some r) (scoped_key name) st1 = v).
    { destruct fuel as [| fuel]; [done |].
      rewrite (resolve_scoped _ _ _ _ _ Hsvc Hlife) in Hres.
      destruct (truthy (httpContext_get (Some r) (scoped_key name) st)) eqn:Ht.
      - rewrite (resolveScopedInstance_stored _ _ _ _ _ Ht) in Hres.
        by injection Hres as <- <-.
      - rewrite (resolveScopedInstance_constructs _ _ _ _ _ Ht) in Hres.
        destruct (createInstance _ service st) as [[i|e] st']; [| done].
        injection Hres as <- <-. apply httpContext_get_set_same. }
    destruct (resolve_each_extends calls st1) as (Hs2 & _ & Hh2 & _).
    destruct Hext as (Hs1 & _).
    fold st2 in Hs2, Hh2.
    assert (Hkept : httpContext_get (Some r) (scoped_key name) st2 = v).
    { rewrite <- Hstored. apply Hh2. by rewrite Hstored. }
    rewrite (resolve_scoped fuel' (Some r) name service st2);
      [| by rewrite Hs2, Hs1 | done].
    rewrite resolveScopedInstance_stored; rewrite Hkept; done.
  - intros ctor fuel1 fuel2 r1 r2 st v1 st1 v2 st2 Hdef Harrow Hplain Hsvc Hne
      Hempty1 Hempty2 Hres1 Hres2.
    pose proof (monotone_resolve fuel1 (Some r1) name st) as [Hext Hconf].
    rewrite Hres1 in Hext, Hconf. simpl in Hext, Hconf.
    destruct Hext as (Hs1 & _).
    assert (Hempty2' : truthy (httpContext_get (Some r2) (scoped_key name) st1) = false).
    { unfold httpContext_get in *. rewrite Hconf; [done | congruence]. }
    destruct fuel1 as [| fuel1]; [done |]. destruct fuel2 as [| fuel2]; [done |].
    rewrite (resolve_scoped _ _ _ _ _ Hsvc Hlife) in Hres1.
    rewrite (resolveScopedInstance_constructs _ _ _ _ _ Hempty1) in Hres1.
    rewrite (resolve_scoped fuel2 (Some r2) name service st1) in Hres2;
      [| by rewrite Hs1 | done].
    rewrite (resolveScopedInstance_constructs _ _ _ _ _ Hempty2') in Hres2.
    destruct (createInstance (resolve fuel1 (Some r1)) service st)
      as [[i1|e1] sa] eqn:Hc1; [| done].
    destruct (createInstance (resolve fuel2 (Some r2)) service st1)
      as [[i2|e2] sb] eqn:Hc2; [| done].
    injection Hres1 as <- <-. injection Hres2 as <- <-.
    destruct (createInstance_new_instance _ _ _ _ _ _ _ (monotone_resolve fuel1 (Some r1))
                Harrow Hdef Hplain Hc1) as (id1 & -> & Hid1).
    destruct (createInstance_new_instance _ _ _ _ _ _ _ (monotone_resolve fuel2 (Some r2))
                Harrow Hdef Hplain Hc2) as (id2 & -> & Hid2).
    simpl in Hid2.
    intros [= Heq]. lia.
Qed.

(** ** Resolutions of sample registrations *)

Lemma register_lookup name d deps lifetime st :
  services (register name d deps lifetime st) !! name = Some (registered d deps lifetime).
Proof. unfold register, services_set; simpl. apply lookup_insert_eq. Qed.

Lemma singleton_resolves_to_cached_instance_witness :
  let st := registerSingleton "AuthService" plain_class [] IoCContainer_new in
  let st1 := (resolve 1 None "AuthService" st).2 in
  singletons st1 !! "AuthService" = Some (VInstance 0)
  /\ (singletons st !! "AuthService" = None -> constructions st < constructions st1)
  /\ (forall calls fuel' request',
        let st2 := resolve_each calls st1 in
        resolve (S fuel') request' "AuthService" st2 = (Returns (VInstance 0), st2)).
Proof.
  apply (singleton_resolves_to_cached_instance 1 None "AuthService"
           (registered plain_class [] Singleton)).
  - apply register_lookup.
  - reflexivity.
  - vm_compute. reflexivity.
Defined.

(** A falsy scoped instance is constructed at every resolution in the
    request; a falsy singleton once. *)
Example null_scoped_constructed_twice :
  let st := registerScoped "cfg" null_factory [] IoCContainer_new in
  let st1 := (resolve 1 (Some 7) "cfg" st).2 in
  let st2 := (resolve 1 (Some 7) "cfg" st1).2 in
  (constructions st, constructions st1, constructions st2) = (0, 1, 2).
Proof. vm_compute. reflexivity. Qed.

Example null_singleton_constructed_once :
  let st := registerSingleton "cfg" null_factory [] IoCContainer_new in
  let st1 := (resolve 1 (Some 7) "cfg" st).2 in
  let st2 := (resolve 1 (Some 7) "cfg" st1).2 in
  (constructions st, constructions st1, constructions st2) = (0, 1, 1).
Proof. vm_compute. reflexivity. Qed.

(** C9, as stated, fails: a scoped service whose factory hands out a shared
    object gives the requests 1 and 2 one and the same instance. *)
Lemma scoped_instances_of_two_requests_coincide :
  let st := registerScoped "session" (alias_factory "store") []
              (registerSingleton "store" plain_class [] IoCContainer_new) in
  let first := resolve 2 (Some 1) "session" st in
  let second := resolve 2 (Some 2) "session" first.2 in
  serviceLifetime (registered (alias_factory "store") [] Scoped) = Scoped
  /\ first.1 = Returns (VInstance 0)
  /\ second.1 = Returns (VInstance 0).
Proof. vm_compute. repeat split. Qed.

Lemma scoped_instance_per_request_witness :
  let service := registered plain_class [] Scoped in
  let st := registerScoped "ResourceService" plain_class [] IoCContainer_new in
  let first := resolve 1 (Some 1) "ResourceService" st in
  let second := resolve 1 (Some 2) "ResourceService" first.2 in
  first.1 = Returns (VInstance 0) /\ second.1 = Returns (VInstance 1)
  /\ VInstance 0 <> VInstance 1.
Proof.
  split; [vm_compute; reflexivity |]. split; [vm_compute; reflexivity |].
  pose proof (scoped_instance_per_request "ResourceService"
                (registered plain_class [] Scoped) eq_refl) as (_ & _ & Hdistinct).
  apply (Hdistinct (fun this args => Return VUndefined) 1 1 1 2
           (registerScoped "ResourceService" plain_class [] IoCContainer_new)
           (VInstance 0)
           (resolve 1 (Some 1) "ResourceService"
              (registerScoped "ResourceService" plain_class [] IoCContainer_new)).2
           (VInstance 1)
           (resolve 1 (Some 2) "ResourceService"
              (resolve 1 (Some 1) "ResourceService"
                 (registerScoped "ResourceService" plain_class [] IoCContainer_new)).2).2).
  - reflexivity.
  - reflexivity.
  - intros this args. reflexivity.
  - apply register_lookup.
  - lia.
  - reflexivity.
  - reflexivity.
  - vm_compute. reflexivity.
  - vm_compute. reflexivity.
Defined.

(** ** Registering a name twice *)

Lemma resolve_transient fuel request name service st :
  services st !! name = Some service ->
  serviceLifetime service = Transient ->
  resolve (S fuel) request name st = createInstance (resolve fuel request) service st.
Proof. intros Hsvc Hlife. simpl. unfold bind at 1, gets at 1. by rewrite Hsvc, Hlife. Qed.

(** C4, as stated, fails for the singleton lifetime: an instance cached
    under the first registration outlives the second one.  Had only the
    most recent registration been made, the name would resolve to 'B'. *)
Lemma reregistered_singleton_resolves_to_old_instance :
  let st := registerSingleton "svc" plain_class [] IoCContainer_new in
  let st1 := (resolve 1 None "svc" st).2 in
  let st2 := registerSingleton "svc" (constant_factory "B") [] st1 in
  (resolve 1 None "svc" st2).1 = Returns (VInstance 0)
  /\ (resolve 1 None "svc"
        (registerSingleton "svc" (constant_factory "B") [] IoCContainer_new)).1
     = Returns (VString "B").
Proof. vm_compute. split; reflexivity. Qed.

(** C4 (as amended). Registering under an already-registered name replaces
    the stored registration: the container after the two registrations is
    the one that the most recent registration alone produces from the same
    state, so that every later resolution, and every later history of
    resolutions, is the same in both; a transient resolution of the name
    constructs from the most recent registration; but an instance that is
    already in the singleton cache under that name is not discarded, and a
    singleton resolution of the name returns it. *)
Theorem register_last_write_wins
    (name : string) (d1 d2 : definition) (deps1 deps2 : list string)
    (lifetime1 lifetime2 : ServiceLifetime) (st : state) :
  let twice := register name d2 deps2 lifetime2 (register name d1 deps1 lifetime1 st) in
  let once := register name d2 deps2 lifetime2 st in
  twice = once
  /\ services twice !! name = Some (registered d2 deps2 lifetime2)
  /\ (forall fuel request n, resolve fuel request n twice = resolve fuel request n once)
  /\ (forall calls, resolve_each calls twice = resolve_each calls once)
  /\ (lifetime2 = Transient ->
      forall fuel request,
        resolve (S fuel) request name twice
        = createInstance (resolve fuel request) (registered d2 deps2 Transient) twice)
  /\ (lifetime2 = Singleton ->
      forall v fuel request,
        singletons st !! name = Some v ->
        resolve (S fuel) request name twice = (Returns v, twice)).
Proof.
  intros twice once.
  assert (Heq : twice = once).
  { unfold twice, once, register, services_set; simpl. f_equal. apply insert_insert_eq. }
  assert (Hlookup : services twice !! name = Some (registered d2 deps2 lifetime2)).
  { apply register_lookup. }
  split; [exact Heq |]. split; [exact Hlookup |].
  split; [by rewrite Heq |]. split; [by rewrite Heq |]. split.
  - intros -> fuel request. by apply resolve_transient.
  - intros -> v fuel request Hv.
    by apply (resolve_singleton_hit _ _ _ (registered d2 deps2 Singleton)).
Qed.

(** ** The OAuth code exchange *)

(** C6. [authorize] on a session [x], with any answer of the token endpoint.
    When the exchange fails (network error or non-2xx status) the session is
    left exactly as it was, an error wrapped by [HttpError] and converted by
    [convertToHttpError] is handed to [next], and nothing is redirected.
    When it succeeds the payload of the response becomes the session's user
    and the client is redirected to /home.  Hence /home is among the
    effects of the call if and only if the exchange succeeded. *)
Theorem authorize_stores_user_only_on_success
    (HttpError convertToHttpError : value -> value) (token_reply : http_reply)
    (code : value) (x : exchange) :
  let x' := (authorize HttpError convertToHttpError token_reply code x).2 in
  exists new,
    emitted x' = emitted x ++ new
    /\ (In (Redirect "/home") new <-> exchange_succeeds token_reply = true)
    /\ (exchange_succeeds token_reply = false ->
        session_user x' = session_user x
        /\ exists error,
            new = [AxiosPost token_url code; Next (convertToHttpError (HttpError error))])
    /\ (exchange_succeeds token_reply = true ->
        session_user x' = token_payload token_reply
        /\ new = [AxiosPost token_url code; Redirect "/home"]).
Proof.
  intros x'. unfold x'.
  destruct token_reply as [error | status data]; simpl.
  - exists [AxiosPost token_url code; Next (convertToHttpError (HttpError error))].
    unfold authorize, authorizeUser, async, try_catch, bind, await, emit, throw, modify;
      simpl.
    rewrite <- app_assoc. simpl.
    split; [done |]. split; [| split; [| done]].
    + split; [| done]. intros [H | [H | []]]; discriminate H.
    + intros _. split; [done | by exists error].
  - unfold authorize, authorizeUser, async, try_catch, bind, await, emit, throw, modify,
      lift, axios_settle; simpl.
    destruct ((200 <=? status)%Z && (status <? 300)%Z) eqn:Hok; simpl.
    + exists [AxiosPost token_url code; Redirect "/home"].
      rewrite <- app_assoc. simpl.
      split; [done |]. split; [| split; [done | done]].
      split; [done |]. intros _. right. by left.
    + eexists [AxiosPost token_url code; Next (convertToHttpError (HttpError _))].
      rewrite <- app_assoc. simpl.
      split; [done |]. split; [| split; [| done]].
      * split; [| done]. intros [H | [H | []]]; discriminate H.
      * intros _. split; [done | by eexists].
Qed.

(** ** The resource controller and the promises of its service *)

(** An [async] function never throws at its caller: it returns a promise. *)
Lemma async_returns_promise {S} (m : M S value) (st : S) :
  exists fulfilled payload,
    (async m st).1 = Returns (VPromise fulfilled payload) /\ (async m st).2 = (m st).2.
Proof.
  unfold async. destruct (m st) as [[v|e] st']; simpl; eauto.
Qed.

Lemma quiet_ret {A} (a : A) : quiet (ret a).
Proof. intros x. exists []. simpl. by rewrite app_nil_r. Qed.

Lemma quiet_throw {A} e : quiet (@throw exchange A e).
Proof. intros x. exists []. simpl. by rewrite app_nil_r. Qed.

Lemma quiet_lift {A} (r : result A) : quiet (lift r).
Proof. intros x. exists []. simpl. by rewrite app_nil_r. Qed.

Lemma quiet_gets {A} (f : exchange -> A) : quiet (gets f).
Proof. intros x. exists []. simpl. by rewrite app_nil_r. Qed.

Lemma quiet_emit e : is_next e = false -> quiet (emit e).
Proof. intros He x. exists [e]. simpl. by rewrite He. Qed.

Lemma quiet_await v : quiet (await v).
Proof. destruct v as [| | | | | | | | [] payload]; simpl; first [apply quiet_ret | apply quiet_throw]. Qed.

Lemma quiet_bind {A B} (m : M exchange A) (k : A -> M exchange B) :
  quiet m -> (forall a, quiet (k a)) -> quiet (bind m k).
Proof.
  intros Hm Hk x. unfold bind. destruct (Hm x) as (c1 & He1 & Hq1 & Hs1 & Hy1).
  destruct (m x) as [[a|e] x1]; simpl in *; [| by exists c1].
  destruct (Hk a x1) as (c2 & He2 & Hq2 & Hs2 & Hy2).
  exists (c1 ++ c2). rewrite He2, He1, Hs2, Hy2, forallb_app, Hq1, Hq2.
  by rewrite app_assoc.
Qed.

Lemma quiet_try_catch {A} (m : M exchange A) (handler : value -> M exchange A) :
  quiet m -> (forall e, quiet (handler e)) -> quiet (try_catch m handler).
Proof.
  intros Hm Hh x. unfold try_catch. destruct (Hm x) as (c1 & He1 & Hq1 & Hs1 & Hy1).
  destruct (m x) as [[a|e] x1]; simpl in *; [by exists c1 |].
  destruct (Hh e x1) as (c2 & He2 & Hq2 & Hs2 & Hy2).
  exists (c1 ++ c2). rewrite He2, He1, Hs2, Hy2, forallb_app, Hq1, Hq2.
  by rewrite app_assoc.
Qed.

Lemma quiet_async (m : M exchange value) : quiet m -> quiet (async m).
Proof.
  intros Hm x. destruct (async_returns_promise m x) as (ok & payload & _ & Hst).
  rewrite Hst. apply Hm.
Qed.

Ltac quiet_steps :=
  repeat first
    [ apply quiet_async | apply quiet_try_catch | apply quiet_bind | intros ?
    | apply quiet_ret | apply quiet_throw | apply quiet_lift | apply quiet_gets
    | apply quiet_await | apply quiet_emit; reflexivity ].

Section ServicesAreQuiet.

Variable HttpError : value -> value.
Variable jwtDecode : value -> result value.

Lemma quiet_fetchProfile reply user : quiet (fetchProfile HttpError jwtDecode reply user).
Proof. unfold fetchProfile. quiet_steps. Qed.

Lemma quiet_fetchActivities reply user page limit :
  quiet (fetchActivities HttpError reply user page limit).
Proof. unfold fetchActivities. quiet_steps. Qed.

Lemma quiet_fetchGroups reply user : quiet (fetchGroups HttpError reply user).
Proof. unfold fetchGroups. quiet_steps. Qed.

End ServicesAreQuiet.

Section ControllersDoNotAwait.

Variable HttpError : value -> value.
Variable convertToHttpError : value -> value.
Variable jwtDecode : value -> result value.

Lemma render_after_service (service_call : M exchange value) view wrap handler x :
  quiet service_call ->
  (exists fulfilled payload, (service_call x).1 = Returns (VPromise fulfilled payload)) ->
  renders_promise view wrap x
    (async (try_catch
              (let* promise := service_call in emit (Render view (wrap promise)))
              handler) x).2.
Proof.
  intros Hq (ok & payload & Hp).
  destruct (Hq x) as (calls & He & Hn & _).
  unfold async, try_catch, bind, emit.
  destruct (service_call x) as [r x1]. simpl in *. subst r. simpl.
  exists calls, ok, payload. rewrite He. by rewrite <- app_assoc.
Qed.

(** C2 (what the code does). Each of the three resource actions calls its
    service without awaiting it: whatever the provider answers, the action
    renders its view with the promise the service returned, fulfilled or
    rejected, and among its effects there is no call of [next]. *)
Theorem resource_actions_render_the_unawaited_promise
    (graphql_reply : result value) (events_reply : http_reply) (x : exchange) :
  renders_promise "profile" (fun p => p) x
    (profile HttpError convertToHttpError jwtDecode graphql_reply x).2
  /\ renders_promise "activities" (fun p => p) x
       (activities HttpError convertToHttpError events_reply x).2
  /\ renders_promise "groups" (fun p => VObject [("groups", p)]) x
       (groups HttpError convertToHttpError graphql_reply x).2.
Proof.
  split; [| split].
  - apply (render_after_service
             (fetchProfile HttpError jwtDecode graphql_reply (session_user x))).
    + apply quiet_fetchProfile.
    + unfold fetchProfile.
      match goal with
      | |- context [async ?m x] =>
          destruct (async_returns_promise m x) as (ok & payload & Hp & _)
      end.
      eauto.
  - apply (render_after_service
             (fetchActivities HttpError events_reply (session_user x)
                (Some (parseInt (query x !! "page")))
                (Some (parseInt (query x !! "limit"))))).
    + apply quiet_fetchActivities.
    + unfold fetchActivities.
      match goal with
      | |- context [async ?m x] =>
          destruct (async_returns_promise m x) as (ok & payload & Hp & _)
      end.
      eauto.
  - apply (render_after_service
             (fetchGroups HttpError graphql_reply (session_user x))).
    + apply quiet_fetchGroups.
    + unfold fetchGroups.
      match goal with
      | |- context [async ?m x] =>
          destruct (async_returns_promise m x) as (ok & payload & Hp & _)
      end.
      eauto.
Qed.

End ControllersDoNotAwait.

(** ** Pagination of the activities *)

Lemma number_le_refl n : n <> NaN -> number_le n n = true.
Proof. destruct n; simpl; try done. intros _. apply Z.leb_refl. Qed.

(** The page that is sent is clamped to the ceiling, as soon as there is a
    ceiling to compare with. *)
Lemma queried_page_is_clamped page limit :
  ceil_div totalActivities limit <> NaN ->
  number_le (queried_page page limit) (ceil_div totalActivities limit) = true.
Proof.
  intros Hceil. unfold queried_page.
  destruct (number_le page (ceil_div totalActivities limit)) eqn:Hle; [done |].
  by apply number_le_refl.
Qed.

Lemma fetchActivities_success HttpError status data user token page limit x :
  get_property user "access_token" = Returns token ->
  (200 <= status < 300)%Z ->
  fetchActivities HttpError (Response status data) user (Some page) (Some limit) x
  = (Returns (VPromise true (activities_view data page limit)),
     with_effects x [AxiosGet events_url limit (queried_page page limit) token]).
Proof.
  intros Htoken Hstatus.
  unfold fetchActivities, async, try_catch, bind, lift, emit, await, axios_settle; simpl.
  rewrite Htoken.
  assert (Hok : ((200 <=? status)%Z && (status <? 300)%Z) = true).
  { apply andb_true_iff. split; [apply Z.leb_le | apply Z.ltb_lt]; lia. }
  by rewrite Hok.
Qed.

(** C1 (what the code does). On a successful call, [fetchActivities] sends
    the clamped page to the events endpoint but puts the requested page, as
    it was passed, into the view model next to [totalPages]. *)
Theorem fetchActivities_returns_the_requested_page
    (HttpError : value -> value) (status : Z) (data user token : value)
    (page limit : number) (x : exchange) :
  get_property user "access_token" = Returns token ->
  (200 <= status < 300)%Z ->
  let '(promise, x') :=
    fetchActivities HttpError (Response status data) user (Some page) (Some limit) x in
  promise = Returns (VPromise true
              (VObject [("activities", data); ("page", VNumber page);
                        ("totalPages", VNumber (ceil_div totalActivities limit));
                        ("limit", VNumber limit)]))
  /\ emitted x'
     = emitted x ++ [AxiosGet events_url limit (queried_page page limit) token]
  /\ (ceil_div totalActivities limit <> NaN ->
      number_le (queried_page page limit) (ceil_div totalActivities limit) = true).
Proof.
  intros Htoken Hstatus.
  rewrite (fetchActivities_success _ _ _ _ _ _ _ _ Htoken Hstatus).
  split; [done |]. split; [done |]. apply queried_page_is_clamped.
Qed.

(** At page 7 with limit 20 the view model says page 7 of 6. *)
Lemma fetchActivities_returns_the_requested_page_witness :
  let user := VObject [("access_token", VString "token")] in
  let x := {| session_user := user; query := ∅; emitted := [] |} in
  let '(promise, x') :=
    fetchActivities (fun e => e) (Response 200 (VObject [])) user
      (Some (Finite 7)) (Some (Finite 20)) x in
  promise = Returns (VPromise true
              (VObject [("activities", VObject []); ("page", VNumber (Finite 7));
                        ("totalPages", VNumber (Finite 6));
                        ("limit", VNumber (Finite 20))]))
  /\ emitted x' = [AxiosGet events_url (Finite 20) (Finite 6) (VString "token")]
  /\ (Finite 6 <> NaN -> number_le (Finite 6) (Finite 6) = true).
Proof.
  apply (fetchActivities_returns_the_requested_page (fun e => e) 200 (VObject [])
           (VObject [("access_token", VString "token")]) (VString "token")
           (Finite 7) (Finite 20)
           {| session_user := VObject [("access_token", VString "token")];
              query := ∅; emitted := [] |}).
  - reflexivity.
  - lia.
Defined.

(** The defaults of [fetchActivities] apply when an argument is undefined. *)
Lemma fetchActivities_defaults HttpError reply user :
  fetchActivities HttpError reply user None None
  = fetchActivities HttpError reply user (Some (Finite 1)) (Some (Finite 20)).
Proof. reflexivity. Qed.

Lemma activities_view_defaults data :
  activities_view data (Finite 1) (Finite 20)
  = VObject [("activities", data); ("page", VNumber (Finite 1));
             ("totalPages", VNumber (Finite 6)); ("limit", VNumber (Finite 20))]
  /\ queried_page (Finite 1) (Finite 20) = Finite 1.
Proof. split; reflexivity. Qed.

(** C3 (what the code does). The controller passes [parseInt] of the query
    parameters, so an absent parameter reaches the service as NaN and not as
    undefined, and the defaults 1 and 20 do not apply: with [page] absent the
    view model carries page NaN and the endpoint is asked for the last page;
    with [limit] absent it carries limit NaN and totalPages NaN, and the
    endpoint is asked for per_page NaN and page NaN. *)
Theorem activities_absent_parameter_is_NaN
    (HttpError convertToHttpError : value -> value) (status : Z) (data token : value)
    (x : exchange) :
  get_property (session_user x) "access_token" = Returns token ->
  (200 <= status < 300)%Z ->
  let page := parseInt (query x !! "page") in
  let limit := parseInt (query x !! "limit") in
  (activities HttpError convertToHttpError (Response status data) x).2
  = with_effects x
      [AxiosGet events_url limit (queried_page page limit) token;
       Render "activities" (VPromise true (activities_view data page limit))]
  /\ (query x !! "page" = None ->
      page = NaN /\ queried_page page limit = ceil_div totalActivities limit)
  /\ (query x !! "limit" = None ->
      limit = NaN /\ ceil_div totalActivities limit = NaN
      /\ queried_page page limit = NaN).
Proof.
  intros Htoken Hstatus page limit.
  split; [| split].
  - unfold activities, async, try_catch, bind, gets at 1 2 3.
    fold page limit.
    rewrite (fetchActivities_success _ _ _ _ _ _ _ _ Htoken Hstatus).
    unfold emit, with_effects; simpl. by rewrite <- app_assoc.
  - intros Habsent. unfold page. rewrite Habsent. split; reflexivity.
  - intros Habsent. unfold limit. rewrite Habsent.
    split; [reflexivity |]. split; [reflexivity |].
    unfold queried_page. simpl. by destruct page.
Qed.

Lemma activities_absent_parameter_is_NaN_witness :
  let x := {| session_user := VObject [("access_token", VString "token")];
              query := ∅; emitted := [] |} in
  (activities (fun e => e) (fun e => e) (Response 200 (VObject [])) x).2
  = with_effects x
      [AxiosGet events_url NaN NaN (VString "token");
       Render "activities" (VPromise true (activities_view (VObject []) NaN NaN))].
Proof.
  refine (proj1 (activities_absent_parameter_is_NaN (fun e => e) (fun e => e) 200
                   (VObject []) (VString "token")
                   {| session_user := VObject [("access_token", VString "token")];
                      query := ∅; emitted := [] |} _ _)).
  - reflexivity.
  - lia.
Defined.

(** ** The construction rule *)

(** *** Source texts accepted by the arrow-function pattern *)

Lemma append_cons (ch : ascii) (a b : string) : String ch a +:+ b = String ch (a +:+ b).
Proof. reflexivity. Qed.

Lemma append_empty_l (a : string) : "" +:+ a = a.
Proof. reflexivity. Qed.

Ltac string_simpl := rewrite ?append_cons, ?append_empty_l.

Lemma append_assoc (a b c : string) : (a +:+ b) +:+ c = a +:+ b +:+ c.
Proof. induction a as [| ch a IH]; string_simpl; [done | by rewrite IH]. Qed.

Ltac string_norm :=
  repeat first [rewrite append_assoc | rewrite append_cons | rewrite append_empty_l].

Lemma all_chars_append p a b :
  all_chars p (a +:+ b) = all_chars p a && all_chars p b.
Proof.
  induction a as [| ch a IH]; string_simpl; simpl; [done | by rewrite IH, andb_assoc].
Qed.

Lemma skip_all p a b : all_chars p a = true -> skip p (a +:+ b) = skip p b.
Proof.
  induction a as [| ch a IH]; string_simpl; simpl; [done |].
  intros [Hc Ha]%andb_true_iff. rewrite Hc. by apply IH.
Qed.

Lemma skip_stop p c r : p c = false -> skip p (String c r) = String c r.
Proof. intros Hc. simpl. by rewrite Hc. Qed.

(** [skip] splits its argument into the skipped prefix and the rest. *)
Lemma skip_span p s : exists pre, all_chars p pre = true /\ s = pre +:+ skip p s.
Proof.
  induction s as [| ch s (pre & Hpre & Hs)]; simpl.
  - by exists "".
  - destruct (p ch) eqn:Hc.
    + exists (String ch pre). simpl. rewrite Hc, Hpre. string_simpl.
      split; [done | by rewrite <- Hs].
    + by exists "".
Qed.

Lemma space_is_no_word c : is_space c = true -> is_word c = false.
Proof. destruct c as [[] [] [] [] [] [] [] []]; vm_compute; congruence. Qed.

(** White space followed by a character that is no word character stops the
    reading of an identifier. *)
Lemma skip_word_stops ws c tail :
  white_space ws -> is_word c = false ->
  skip is_word (ws +:+ String c tail) = ws +:+ String c tail.
Proof.
  intros Hws Hc. destruct ws as [| s ws]; string_simpl.
  - by apply skip_stop.
  - apply andb_true_iff in Hws as [Hs _]. apply skip_stop. by apply space_is_no_word.
Qed.

Lemma starts_with_arrow_spec s :
  starts_with_arrow s = true <-> exists rest, s = "=>" +:+ rest.
Proof.
  split.
  - destruct s as [| c1 [| c2 rest]]; simpl; try done.
    intros [H1 H2]%andb_true_iff.
    apply Ascii.eqb_eq in H1, H2. subst. by exists rest.
  - intros [rest ->]. reflexivity.
Qed.

(** The regular expression accepts exactly these source texts. *)
Lemma arrowFunctionRegex_test_spec source :
  arrowFunctionRegex_test source = true <-> matches_arrow_pattern source.
Proof.
  split.
  - unfold arrowFunctionRegex_test. intros Htest.
    destruct (skip_span is_space source) as (ws1 & Hws1 & Hsource).
    destruct (skip is_space source) as [| c r]; [done |].
    destruct (Ascii.eqb c "(") eqn:Hparen.
    + apply Ascii.eqb_eq in Hparen. subst c.
      destruct (skip_span is_space r) as (wa & Hwa & Hr).
      destruct (skip_span is_word (skip is_space r)) as (x & Hx & Hr1).
      destruct (skip_span is_space (skip is_word (skip is_space r))) as (wb & Hwb & Hr2).
      destruct (skip is_space (skip is_word (skip is_space r))) as [| c' t]; [done |].
      apply andb_true_iff in Htest as [Hclose Harrow].
      apply Ascii.eqb_eq in Hclose. subst c'.
      destruct (skip_span is_space t) as (wc & Hwc & Ht).
      apply starts_with_arrow_spec in Harrow as [rest Hrest].
      rewrite Hrest in Ht. rewrite Ht in Hr2. rewrite Hr2 in Hr1. rewrite Hr1 in Hr.
      destruct x as [| xc x'].
      * exists ws1, ("(" +:+ (wa +:+ wb) +:+ ")"), wc, rest.
        split; [done |]. split; [| split; [done |]].
        -- apply no_parameter. unfold white_space. by rewrite all_chars_append, Hwa, Hwb.
        -- rewrite Hsource, Hr. by string_norm.
      * exists ws1, ("(" +:+ wa +:+ String xc x' +:+ wb +:+ ")"), wc, rest.
        split; [done |]. split; [| split; [done |]].
        -- by apply parenthesised_parameter.
        -- rewrite Hsource, Hr. by string_norm.
    + apply andb_true_iff in Htest as [Hword Harrow].
      destruct (skip_span is_word r) as (x & Hx & Hr).
      destruct (skip_span is_space (skip is_word r)) as (wb & Hwb & Hr1).
      apply starts_with_arrow_spec in Harrow as [rest Hrest].
      rewrite Hrest in Hr1. rewrite Hr1 in Hr.
      exists ws1, (String c x), wb, rest.
      split; [done |]. split; [| split; [done |]].
      * apply bare_parameter. split; [done |]. simpl. by rewrite Hword, Hx.
      * rewrite Hsource, Hr. by string_norm.
  - intros (ws1 & params & ws2 & rest & Hws1 & Hparams & Hws2 & ->).
    unfold arrowFunctionRegex_test. rewrite (skip_all _ _ _ Hws1).
    assert (Htail : forall ws, white_space ws ->
              starts_with_arrow (skip is_space (ws +:+ "=>" +:+ rest)) = true).
    { intros ws Hws. rewrite (skip_all _ _ _ Hws). reflexivity. }
    assert (Hclose : forall ws tail, white_space ws ->
              skip is_space (skip is_word (ws +:+ String ")" tail)) = String ")" tail).
    { intros ws tail Hws. rewrite (skip_word_stops _ _ _ Hws); [| done].
      rewrite (skip_all _ _ _ Hws). reflexivity. }
    destruct Hparams as [ws Hws | wa x wb Hwa [Hne Hx] Hwb | x [Hne Hx]].
    + string_norm. simpl. rewrite (skip_all _ _ _ Hws).
      string_simpl. simpl. by apply Htail.
    + string_norm. simpl. rewrite (skip_all _ _ _ Hwa).
      destruct x as [| xc x']; [done |].
      apply andb_true_iff in Hx as [Hxc Hx]. string_simpl. simpl.
      assert (Hns : is_space xc = false).
      { destruct (is_space xc) eqn:Hs; [| done].
        apply space_is_no_word in Hs. congruence. }
      rewrite Hns. simpl. rewrite Hxc. rewrite (skip_all _ _ _ Hx).
      rewrite (Hclose wb _ Hwb). simpl. by apply Htail.
    + destruct x as [| xc x']; [done |].
      apply andb_true_iff in Hx as [Hxc Hx]. string_simpl. simpl.
      assert (Hns : is_space xc = false).
      { destruct (is_space xc) eqn:Hs; [| done].
        apply space_is_no_word in Hs. congruence. }
      rewrite Hns.
      assert (Hnp : Ascii.eqb xc "(" = false).
      { destruct (Ascii.eqb xc "(") eqn:He; [| done].
        apply Ascii.eqb_eq in He. subst xc. done. }
      rewrite Hnp, Hxc. simpl. rewrite (skip_all _ _ _ Hx). string_simpl.
      rewrite (skip_word_stops _ _ _ Hws2); [| done]. by apply Htail.
Qed.

Lemma is_arrow_function_spec d : is_arrow_function d = true <-> pattern_factory d.
Proof.
  split.
  - destruct d as [ctor | source fn | v]; simpl; try done.
    intros Htest. exists source, fn. split; [done |].
    by apply arrowFunctionRegex_test_spec.
  - intros (source & fn & -> & Hsource). simpl.
    by apply arrowFunctionRegex_test_spec.
Qed.

Lemma mapM_resolved_in_order rec names st r st' :
  mapM rec names st = (r, st') <-> resolved_in_order rec names st r st'.
Proof.
  split.
  - revert st r st'. induction names as [| name names IH]; intros st r st' Hmap.
    + injection Hmap as <- <-. constructor.
    + simpl in Hmap. unfold bind in Hmap.
      destruct (rec name st) as [[v|e] st1] eqn:Hrec.
      * destruct (mapM rec names st1) as [[vs|e] st2] eqn:Hrest.
        -- injection Hmap as <- <-. eapply in_order_next; [exact Hrec | by apply IH].
        -- injection Hmap as <- <-. eapply in_order_throws_later; [exact Hrec | by apply IH].
      * injection Hmap as <- <-. by apply in_order_throws.
  - induction 1 as [st | name names st v st1 vs st2 Hrec _ IH
                    | name names st e st1 Hrec
                    | name names st v st1 e st2 Hrec _ IH]; simpl; unfold bind.
    + done.
    + by rewrite Hrec, IH.
    + by rewrite Hrec.
    + by rewrite Hrec, IH.
Qed.

(** Carrying out a body is what [run] computes. *)
Lemma run_invoked rec b st r st' :
  run rec b st = (r, st') <-> invoked rec b st r st'.
Proof.
  split.
  - revert st. induction b as [v | e | k IH | name k IH]; intros st Hrun; simpl in Hrun.
    + injection Hrun as <- <-. constructor.
    + injection Hrun as <- <-. constructor.
    + constructor. by apply IH.
    + destruct (rec name st) as [answer st1] eqn:Hrec.
      eapply invoked_calls_resolver; [exact Hrec | by apply IH].
  - induction 1 as [v st | e st | k st r st' _ IH
                    | name k st answer st1 r st' Hrec _ IH]; simpl.
    + done.
    + done.
    + exact IH.
    + by rewrite Hrec.
Qed.

(** [new] on a definition and a list of arguments. *)
Lemma new_definition_invoked rec d args st r st' :
  new_definition rec d args st = (r, st') <-> invoked_as_constructor rec d args st r st'.
Proof.
  split.
  - destruct d as [ctor | source fn | v]; simpl.
    + destruct (run rec (ctor (VInstance (next_id st)) args) (allocate st))
        as [[v|e] s] eqn:Hrun; apply run_invoked in Hrun; intros [= <- <-].
      * destruct (is_object v) eqn:Hobject.
        -- by eapply constructor_yields_own_object.
        -- by eapply constructor_yields_new_object.
      * by eapply constructor_throws.
    + intros [= <- <-]. by apply not_a_constructor.
    + intros [= <- <-]. by apply not_a_constructor.
  - intros [ctor v s -> Hrun Hobject | ctor v s -> Hrun Hobject
            | ctor e s -> Hrun | Hnot]; simpl.
    + apply run_invoked in Hrun. by rewrite Hrun, Hobject.
    + apply run_invoked in Hrun. by rewrite Hrun, Hobject.
    + apply run_invoked in Hrun. by rewrite Hrun.
    + destruct d as [ctor | source fn | v]; [by destruct (Hnot ctor) | done | done].
Qed.

Lemma createInstance_constructed rec d deps lifetime st r st' :
  createInstance rec (registered d deps lifetime) st = (r, st')
  <-> constructed pattern_factory rec d deps (count_construction st) r st'.
Proof.
  unfold createInstance, bind, modify. simpl.
  destruct (is_arrow_function d) eqn:Harrow.
  - apply is_arrow_function_spec in Harrow as Hfactory.
    destruct (Hfactory) as (source & fn & -> & Hsource). simpl.
    split.
    + intros Hrun%run_invoked. by eapply constructed_by_factory.
    + intros [source' fn' r' st'' _ [= <- <-] Hrun
             | args st1 r' st'' Hnot _ _ | e st'' Hnot _];
        [by apply run_invoked | by destruct Hnot ..].
  - assert (Hnot : ~ pattern_factory d).
    { intros Hf%is_arrow_function_spec. congruence. }
    split.
    + intros Hcreate.
      destruct (mapM rec deps (count_construction st)) as [[args|e] st1] eqn:Hmap.
      * eapply constructed_by_constructor;
          [done | by apply mapM_resolved_in_order | by apply new_definition_invoked].
      * injection Hcreate as <- <-. apply not_constructed; [done |].
        by apply mapM_resolved_in_order.
    + intros [source fn r' st'' Hfactory _ _
             | args st1 r' st'' _ Hdeps Hnew | e st'' _ Hdeps].
      * by destruct Hnot.
      * apply mapM_resolved_in_order in Hdeps. rewrite Hdeps.
        by apply new_definition_invoked.
      * apply mapM_resolved_in_order in Hdeps. by rewrite Hdeps.
Qed.

(** C5, as stated, fails: [$c => 'made'] is a factory function of one
    argument, yet [register] does not mark it as an arrow function, and the
    construction applies [new] to it, which throws, where the rule of the
    claim invokes it with the resolver and obtains 'made'. *)
Lemma dollar_parameter_factory_is_not_invoked :
  let st := registerTransient "svc" dollar_factory [] IoCContainer_new in
  let outcome := resolve 1 None "svc" st in
  factory_function dollar_factory
  /\ isArrowFunction (registered dollar_factory [] Transient) = false
  /\ outcome = (Throws (VError "TypeError" "service.definition is not a constructor"),
                count_construction st)
  /\ constructed factory_function (resolve 0 None) dollar_factory []
       (count_construction st) (Returns (VString "made")) (count_construction st)
  /\ ~ constructed factory_function (resolve 0 None) dollar_factory []
         (count_construction st) outcome.1 outcome.2.
Proof.
  intros st outcome.
  assert (Hfactory : factory_function dollar_factory).
  { exists "$c => 'made'", (Return (VString "made")). split; [done |].
    exists "", "$c", " ", " 'made'".
    split; [done |]. split; [| split; [done | done]].
    apply bare_parameter. reflexivity. }
  assert (Houtcome : outcome
            = (Throws (VError "TypeError" "service.definition is not a constructor"),
               count_construction st)).
  { vm_compute. reflexivity. }
  split; [exact Hfactory |]. split; [reflexivity |]. split; [exact Houtcome |]. split.
  - eapply constructed_by_factory; [exact Hfactory | reflexivity | constructor].
  - rewrite Houtcome. simpl.
    intros Hrule.
    inversion Hrule as [source fn r st' _ Hd Hrun | args st1 r st' Hnot _ _ | e st' Hnot _].
    + injection Hd as <- <-. inversion Hrun.
    + by destruct Hnot.
    + by destruct Hnot.
Qed.

(** C5 (as amended). A registered service is constructed by the rule, with
    the container's own [resolve] as the resolver, where the factory
    functions of the rule are the functions without prototype whose source
    text starts with [()], [(x)] or [x], for a run [x] of word characters,
    followed by the arrow: these are exactly the definitions for which
    [register] sets [isArrowFunction].  [createInstance], which first counts
    the construction, yields a result and a state exactly when the rule
    relates them: such a factory is invoked with the resolver as its single
    argument; any other definition has its dependencies resolved in order,
    the first failure ending the construction, and is then invoked as a
    constructor on the resolved values, which throws a TypeError when it is
    no constructor.  A transient resolution is nothing but this
    construction. *)
Theorem createInstance_follows_the_rule
    (fuel : nat) (request : option nat) (name : string) (d : definition)
    (deps : list string) (lifetime : ServiceLifetime) (st0 st : state)
    (r : result value) (st' : state) :
  let service := registered d deps lifetime in
  let registered_state := register name d deps lifetime st0 in
  services registered_state !! name = Some service
  /\ (isArrowFunction service = true <-> pattern_factory d)
  /\ (createInstance (resolve fuel request) service st = (r, st')
      <-> constructed pattern_factory (resolve fuel request) d deps
            (count_construction st) r st')
  /\ (lifetime = Transient ->
      resolve (S fuel) request name registered_state = (r, st')
      <-> constructed pattern_factory (resolve fuel request) d deps
            (count_construction registered_state) r st').
Proof.
  intros service registered_state.
  assert (Hlookup : services registered_state !! name = Some service).
  { apply register_lookup. }
  split; [exact Hlookup |].
  split; [apply is_arrow_function_spec |].
  split; [apply createInstance_constructed |].
  intros ->.
  rewrite (resolve_transient fuel request name service registered_state Hlookup eq_refl).
  apply createInstance_constructed.
Qed.

(** * Further properties of the container *)

(** ** Transient lifetime *)

(** X1. A transient service that is a class whose constructor returns no
    object of its own is constructed anew by every resolution: two
    resolutions that return, with any history of resolutions in between,
    return distinct instances, and each of them counts a construction. *)
Theorem transient_resolutions_return_distinct_instances
    (name : string) (service : Service) (ctor : value -> list value -> body)
    (fuel1 fuel2 : nat) (request1 request2 : option nat)
    (calls : list (nat * option nat * string))
    (st st1 st3 : state) (v1 v2 : value) :
  services st !! name = Some service ->
  serviceLifetime service = Transient ->
  isArrowFunction service = false ->
  service_definition service = Class ctor ->
  (forall this args, returns_no_object (ctor this args)) ->
  resolve fuel1 request1 name st = (Returns v1, st1) ->
  resolve fuel2 request2 name (resolve_each calls st1) = (Returns v2, st3) ->
  v1 <> v2
  /\ constructions st < constructions st1
  /\ constructions (resolve_each calls st1) < constructions st3.
Proof.
  intros Hsvc Hlife Harrow Hdef Hplain Hres1 Hres2.
  assert (Hext1 : extends st st1).
  { pose proof (resolve_extends fuel1 request1 name st) as H. by rewrite Hres1 in H. }
  destruct Hext1 as (Hs1 & _).
  destruct (resolve_each_extends calls st1) as (Hs2 & _ & _ & Hn2 & _).
  set (st2 := resolve_each calls st1) in *.
  destruct fuel1 as [| fuel1]; [done |]. destruct fuel2 as [| fuel2]; [done |].
  rewrite (resolve_transient _ _ _ _ _ Hsvc Hlife) in Hres1.
  rewrite (resolve_transient fuel2 request2 name service st2) in Hres2;
    [| by rewrite Hs2, Hs1 | done].
  destruct (createInstance_new_instance _ _ _ _ _ _ _ (monotone_resolve fuel1 request1)
              Harrow Hdef Hplain Hres1) as (id1 & -> & Hid1).
  destruct (createInstance_new_instance _ _ _ _ _ _ _ (monotone_resolve fuel2 request2)
              Harrow Hdef Hplain Hres2) as (id2 & -> & Hid2).
  pose proof (createInstance_counts request1 (resolve fuel1 request1) service st
                (monotone_resolve fuel1 request1)) as Hc1.
  pose proof (createInstance_counts request2 (resolve fuel2 request2) service st2
                (monotone_resolve fuel2 request2)) as Hc2.
  rewrite Hres1 in Hc1. rewrite Hres2 in Hc2. simpl in Hc1, Hc2.
  split; [| by split].
  intros [= Heq]. lia.
Qed.

Lemma transient_resolutions_return_distinct_instances_witness :
  VInstance 0 <> VInstance 1
  /\ 0 < 1
  /\ 1 < 2.
Proof.
  pose (st := registerTransient "AuthService" plain_class [] IoCContainer_new).
  pose proof (transient_resolutions_return_distinct_instances "AuthService"
                (registered plain_class [] Transient) (fun this args => Return VUndefined)
                1 1 None (Some 3) [] st (resolve 1 None "AuthService" st).2
                (resolve 1 (Some 3) "AuthService" (resolve 1 None "AuthService" st).2).2
                (VInstance 0) (VInstance 1)) as H.
  apply H.
  - apply register_lookup.
  - reflexivity.
  - reflexivity.
  - reflexivity.
  - intros this args. reflexivity.
  - vm_compute. reflexivity.
  - vm_compute. reflexivity.
Defined.

(** ** Services that cannot be constructed *)

Lemma resolve_unregistered_dependency fuel request dep st :
  services st !! dep = None ->
  exists e, resolve fuel request dep st = (Throws e, st).
Proof.
  intros Hnone. destruct fuel as [| fuel]; simpl.
  - by eexists.
  - unfold bind, gets. rewrite Hnone. by eexists.
Qed.

Lemma resolve_services fuel request name st :
  services (resolve fuel request name st).2 = services st.
Proof. by destruct (resolve_extends fuel request name st) as (Hs & _). Qed.

(** A resolution without an instance at hand is a construction: what
    [createInstance] throws is thrown on, and what it returns is stored
    where the lifetime says and returned. *)
Lemma resolve_without_instance fuel request name service st :
  services st !! name = Some service ->
  instance_at_hand request name service st = false ->
  resolve (S fuel) request name st
  = match createInstance (resolve fuel request) service st with
    | (Returns i, st') =>
        (Returns i,
         match serviceLifetime service with
         | Singleton => singletons_set name i st'
         | Scoped => httpContext_set request (scoped_key name) i st'
         | Transient => st'
         end)
    | (Throws e, st') => (Throws e, st')
    end.
Proof.
  intros Hsvc Hnone. unfold instance_at_hand in Hnone.
  destruct (serviceLifetime service) eqn:Hlife.
  - rewrite (resolve_scoped _ _ _ _ _ Hsvc Hlife).
    by rewrite (resolveScopedInstance_constructs _ _ _ _ _ Hnone).
  - rewrite (resolve_singleton _ _ _ _ _ Hsvc Hlife).
    unfold resolveSingletonInstance, bind, gets, modify, ret; simpl.
    rewrite Hnone; simpl.
    destruct (createInstance (resolve fuel request) service st) as [[i|e] st'];
      [| done].
    simpl. unfold singletons_get, singletons_set; simpl. by rewrite lookup_insert_eq.
  - rewrite (resolve_transient _ _ _ _ _ Hsvc Hlife).
    by destruct (createInstance (resolve fuel request) service st) as [[i|e] st'].
Qed.

Lemma mapM_throws_at (rec : string -> M state value) names dep st :
  (forall n st0, services (rec n st0).2 = services st0) ->
  (forall st0, services st0 = services st -> exists e, (rec dep st0).1 = Throws e) ->
  In dep names ->
  forall st0, services st0 = services st -> exists e, (mapM rec names st0).1 = Throws e.
Proof.
  intros Hkeep Hthrows. induction names as [| n names IH]; intros Hin st0 Hst0; [done |].
  simpl. unfold bind.
  destruct (rec n st0) as [[v|e] st1] eqn:Hrec; [| by eexists].
  assert (Hst1 : services st1 = services st).
  { rewrite <- Hst0. pose proof (Hkeep n st0) as H. by rewrite Hrec in H. }
  destruct (decide (n = dep)) as [-> | Hne].
  - destruct (Hthrows st0 Hst0) as [e He]. rewrite Hrec in He. done.
  - destruct Hin as [-> | Hin]; [done |].
    destruct (IH Hin st1 Hst1) as [e He].
    destruct (mapM rec names st1) as [[vs|e'] st2]; simpl in *; [done | by eexists].
Qed.

(** X2. A service constructed with [new] that declares a dependency which is
    not registered cannot be resolved as long as no instance of it is at
    hand: whatever the stack budget, the resolution throws.  When the
    missing dependency is the first one declared, the error is the "not
    found" error of the dependency, and the only trace of the attempt is
    the counted construction. *)
Theorem missing_dependency_makes_service_unresolvable
    (request : option nat) (name dep : string) (service : Service) (st : state) :
  services st !! name = Some service ->
  isArrowFunction service = false ->
  In dep (dependencies service) ->
  services st !! dep = None ->
  instance_at_hand request name service st = false ->
  (forall fuel, exists e, (resolve fuel request name st).1 = Throws e)
  /\ (forall fuel rest,
        dependencies service = dep :: rest ->
        resolve (S (S fuel)) request name st
        = (Throws (VError "Error" ("Service '" +:+ dep +:+ "' not found.")),
           count_construction st)).
Proof.
  intros Hsvc Harrow Hin Hnone Hhand. split.
  - intros [| fuel]; [by eexists |].
    rewrite (resolve_without_instance _ _ _ _ _ Hsvc Hhand).
    unfold createInstance, bind, modify; simpl. rewrite Harrow.
    destruct (mapM_throws_at (resolve fuel request) (dependencies service) dep st)
      with (st0 := count_construction st) as [e He]; try done.
    + intros n st0. apply resolve_services.
    + intros st0 Hst0.
      destruct (resolve_unregistered_dependency fuel request dep st0) as [e He].
      * by rewrite Hst0.
      * rewrite He. by eexists.
    + destruct (mapM (resolve fuel request) (dependencies service)
                  (count_construction st)) as [[args|e'] st1]; simpl in *; [done |].
      by eexists.
  - intros fuel rest Hdeps.
    rewrite (resolve_without_instance _ _ _ _ _ Hsvc Hhand).
    unfold createInstance, bind, modify; simpl. rewrite Harrow, Hdeps. simpl.
    unfold bind, gets; simpl. by rewrite Hnone.
Qed.

Lemma missing_dependency_makes_service_unresolvable_witness :
  resolve 2 None "AuthController"
    (registerSingleton "AuthController" plain_class ["AuthService"] IoCContainer_new)
  = (Throws (VError "Error" "Service 'AuthService' not found."),
     count_construction
       (registerSingleton "AuthController" plain_class ["AuthService"] IoCContainer_new)).
Proof.
  refine (proj2 (missing_dependency_makes_service_unresolvable None "AuthController"
                   "AuthService" (registered plain_class ["AuthService"] Singleton)
                   (registerSingleton "AuthController" plain_class ["AuthService"]
                      IoCContainer_new) _ _ _ _ _) 0 [] _).
  - apply register_lookup.
  - reflexivity.
  - by left.
  - vm_compute. reflexivity.
  - vm_compute. reflexivity.
  - reflexivity.
Defined.

Lemma instance_at_hand_count_construction request name service st :
  instance_at_hand request name service (count_construction st)
  = instance_at_hand request name service st.
Proof. unfold instance_at_hand. by destruct (serviceLifetime service), request. Qed.

(** X3. A service constructed with [new] whose first declared dependency is
    the service itself is never resolved: with no instance at hand the
    recursion goes on until the call stack is exhausted, so that for every
    stack budget the resolution throws the RangeError, after one counted
    construction per level of the stack and with nothing else changed. *)
Theorem self_dependency_exhausts_the_stack
    (request : option nat) (name : string) (service : Service) (rest : list string)
    (fuel : nat) (st : state) :
  services st !! name = Some service ->
  isArrowFunction service = false ->
  dependencies service = name :: rest ->
  instance_at_hand request name service st = false ->
  resolve fuel request name st
  = (Throws (VError "RangeError" "Maximum call stack size exceeded"),
     Nat.iter fuel count_construction st).
Proof.
  intros Hsvc Harrow Hdeps. revert st Hsvc.
  induction fuel as [| fuel IH]; intros st Hsvc Hhand; [done |].
  rewrite (resolve_without_instance _ _ _ _ _ Hsvc Hhand).
  unfold createInstance, bind, modify; simpl. rewrite Harrow, Hdeps. simpl.
  unfold bind. rewrite (IH (count_construction st)).
  - by rewrite <- Nat.iter_succ_r.
  - done.
  - by rewrite instance_at_hand_count_construction.
Qed.

Lemma self_dependency_exhausts_the_stack_witness :
  (resolve 100 (Some 1) "Node"
     (registerScoped "Node" plain_class ["Node"; "Leaf"] IoCContainer_new)).1
  = Throws (VError "RangeError" "Maximum call stack size exceeded").
Proof.
  rewrite (self_dependency_exhausts_the_stack (Some 1) "Node"
             (registered plain_class ["Node"; "Leaf"] Scoped) ["Leaf"] 100
             (registerScoped "Node" plain_class ["Node"; "Leaf"] IoCContainer_new)).
  - reflexivity.
  - apply register_lookup.
  - reflexivity.
  - reflexivity.
  - reflexivity.
Defined.

(** X4. A definition that is neither constructible nor recognised as an
    arrow-function factory (a plain value, or an arrow function that the
    pattern rejects, such as one with two parameters) can be registered but
    not resolved: with no instance at hand every resolution throws, and
    when it declares no dependencies the resolution throws the TypeError of
    [new] applied to something that is no constructor. *)
Theorem unconstructible_definition_is_unresolvable
    (request : option nat) (name : string) (d : definition) (deps : list string)
    (lifetime : ServiceLifetime) (st : state) :
  is_arrow_function d = false ->
  (forall ctor, d <> Class ctor) ->
  services st !! name = Some (registered d deps lifetime) ->
  instance_at_hand request name (registered d deps lifetime) st = false ->
  (forall fuel, exists e, (resolve fuel request name st).1 = Throws e)
  /\ (deps = [] ->
      forall fuel,
        resolve (S fuel) request name st
        = (Throws (VError "TypeError" "service.definition is not a constructor"),
           count_construction st)).
Proof.
  intros Harrow Hclass Hsvc Hhand.
  assert (Hnew : forall rec args st0,
            new_definition rec d args st0
            = (Throws (VError "TypeError" "service.definition is not a constructor"), st0)).
  { intros rec args st0. destruct d as [ctor | |]; [by destruct (Hclass ctor) | done ..]. }
  split.
  - intros [| fuel]; [by eexists |].
    rewrite (resolve_without_instance _ _ _ _ _ Hsvc Hhand).
    unfold createInstance, bind, modify; simpl. rewrite Harrow.
    destruct (mapM (resolve fuel request) deps (count_construction st))
      as [[args|e] st1]; simpl.
    + rewrite Hnew. by eexists.
    + by eexists.
  - intros -> fuel.
    rewrite (resolve_without_instance _ _ _ _ _ Hsvc Hhand).
    unfold createInstance, bind, modify; simpl. rewrite Harrow. simpl.
    by rewrite Hnew.
Qed.

Lemma unconstructible_definition_is_unresolvable_witness :
  resolve 1 None "pair"
    (registerTransient "pair" (ArrowFunction "(a, b) => a" (Return VNull)) []
       IoCContainer_new)
  = (Throws (VError "TypeError" "service.definition is not a constructor"),
     count_construction
       (registerTransient "pair" (ArrowFunction "(a, b) => a" (Return VNull)) []
          IoCContainer_new)).
Proof.
  refine (proj2 (unconstructible_definition_is_unresolvable None "pair"
                   (ArrowFunction "(a, b) => a" (Return VNull)) [] Transient
                   (registerTransient "pair"
                      (ArrowFunction "(a, b) => a" (Return VNull)) [] IoCContainer_new)
                   _ _ _ _) eq_refl 0).
  - reflexivity.
  - intros ctor. discriminate.
  - apply register_lookup.
  - reflexivity.
Defined.

(** ** Injection of cached singletons *)

Lemma cached_singleton_count_construction st dep v :
  cached_singleton st dep v -> cached_singleton (count_construction st) dep v.
Proof. intros (service & H). by exists service. Qed.

Lemma mapM_cached_singletons fuel request deps args st :
  Forall2 (cached_singleton st) deps args ->
  mapM (resolve (S fuel) request) deps st = (Returns args, st).
Proof.
  induction 1 as [| dep v deps args (service & Hsvc & Hlife & Hv) _ IH]; [done |].
  cbn [mapM]. unfold bind.
  rewrite (resolve_singleton_hit fuel request dep service st v Hsvc Hlife Hv).
  by rewrite IH.
Qed.

(** X5. Dependencies that are cached singletons are injected as they are:
    when every declared dependency of a transient class is a registered
    singleton with a cached instance, resolving the class resolves nothing
    anew and invokes the constructor once, with exactly the cached
    instances in the order of the declaration. *)
Theorem cached_singletons_are_injected_in_order
    (fuel : nat) (request : option nat) (name : string) (service : Service)
    (args : list value) (st : state) :
  services st !! name = Some service ->
  serviceLifetime service = Transient ->
  isArrowFunction service = false ->
  Forall2 (cached_singleton st) (dependencies service) args ->
  resolve (S (S fuel)) request name st
  = new_definition (resolve (S fuel) request) (service_definition service) args
      (count_construction st).
Proof.
  intros Hsvc Hlife Harrow Hdeps.
  rewrite (resolve_transient _ _ _ _ _ Hsvc Hlife).
  unfold createInstance, bind, modify; simpl. rewrite Harrow.
  rewrite (mapM_cached_singletons fuel request (dependencies service) args).
  - done.
  - eapply Forall2_impl; [exact Hdeps |].
    intros dep v. apply cached_singleton_count_construction.
Qed.

Lemma cached_singletons_are_injected_in_order_witness :
  let st := registerTransient "AuthController" plain_class ["AuthService"]
              (resolve 1 None "AuthService"
                 (registerSingleton "AuthService" plain_class [] IoCContainer_new)).2 in
  resolve 2 None "AuthController" st
  = new_definition (resolve 1 None) plain_class [VInstance 0] (count_construction st).
Proof.
  apply (cached_singletons_are_injected_in_order 0 None "AuthController"
           (registered plain_class ["AuthService"] Transient) [VInstance 0]).
  - apply register_lookup.
  - reflexivity.
  - reflexivity.
  - constructor; [| constructor].
    exists (registered plain_class [] Singleton).
    split; [vm_compute; reflexivity |]. split; [reflexivity | vm_compute; reflexivity].
Defined.

(** ** Histories of resolutions *)

Lemma resolve_each_confined calls r st :
  (forall fuel request name, In (fuel, request, name) calls -> request <> Some r) ->
  httpContext (resolve_each calls st) !! r = httpContext st !! r.
Proof.
  revert st. induction calls as [| [[fuel request] name] calls IH]; intros st Hcalls;
    [done |].
  simpl. rewrite IH.
  - destruct (monotone_resolve fuel request name st) as [_ Hconf].
    apply Hconf. apply (Hcalls fuel request name). by left.
  - intros fuel' request' name' Hin. apply (Hcalls fuel' request' name'). by right.
Qed.

(** X6. Whatever is resolved, in whatever order and in whatever requests,
    the container only grows: the registrations stay as they are, a cached
    singleton is neither dropped nor replaced, a truthy scoped instance
    stays in the store of its request, and the store of a request in which
    nothing was resolved is untouched. *)
Theorem resolutions_only_add_to_the_container
    (calls : list (nat * option nat * string)) (st : state) :
  let st' := resolve_each calls st in
  services st' = services st
  /\ (forall name v, singletons st !! name = Some v -> singletons st' !! name = Some v)
  /\ (forall r name v,
        httpContext_get (Some r) (scoped_key name) st = v -> truthy v = true ->
        httpContext_get (Some r) (scoped_key name) st' = v)
  /\ (forall r,
        (forall fuel request name, In (fuel, request, name) calls -> request <> Some r) ->
        httpContext st' !! r = httpContext st !! r).
Proof.
  intros st'. unfold st'.
  destruct (resolve_each_extends calls st) as (Hs & Hc & Hh & _).
  split; [exact Hs |]. split; [exact Hc |]. split.
  - intros r name v Hv Ht. rewrite <- Hv. apply Hh. by rewrite Hv.
  - intros r Hcalls. by apply resolve_each_confined.
Qed.

(** * Further properties of the services *)

(** A method settles with the wrapped error of its body. *)
Lemma async_try_catch_settles {S} (m : M S value) (wrap : value -> value)
    (origin : value -> Prop) (st : S) :
  (forall e st', m st = (Throws e, st') -> origin e) ->
  settles_wrapping wrap origin (async (try_catch m (fun error => throw (wrap error))) st).1.
Proof.
  intros Horigin. unfold settles_wrapping, async, try_catch, throw.
  destruct (m st) as [[v|e] st'] eqn:Hm; simpl.
  - exists true, v. by split.
  - exists false, (wrap e). split; [done |]. intros _. exists e. split; [| done].
    by eapply Horigin.
Qed.

Lemma get_property_throws v k e : get_property v k = Throws e -> nullish v = true.
Proof. by destruct v. Qed.

Lemma await_throws {S} (v : value) (st st' : S) e :
  await v st = (Throws e, st') -> v = VPromise false e.
Proof. destruct v as [| | | | | | | | [] payload]; try done. by intros [= <- _]. Qed.

Lemma await_axios_returns {S} reply (st st1 : S) response :
  await (axios_settle reply) st = (Returns response, st1) ->
  exists fields, response = VObject fields.
Proof.
  unfold axios_settle. destruct reply as [error | status data]; [done |].
  destruct ((200 <=? status)%Z && (status <? 300)%Z); [| done].
  intros [= <- _]. by eexists.
Qed.

Lemma await_graphql_returns {S} gql (st st1 : S) response :
  await (graphql_settle gql) st = (Returns response, st1) -> gql = Returns response.
Proof. destruct gql as [data | error]; [| done]. by intros [= <- _]. Qed.

Ltac thrown_by_read v :=
  intros [= <- _]; eapply (read_of_nothing _ _ _ v);
  [ unfold answer_read, claims_read; simpl;
    repeat match goal with
           | H : get_property ?v ?k = _ |- context [get_property ?v ?k] => rewrite H
           end;
    rewrite ?in_app_iff; simpl; tauto
  | by eapply get_property_throws
  | eassumption ].

Ltac thrown_by_provider :=
  intros [= <- _]; apply provider_rejected; by eapply await_throws.

(** X7. The four service methods never throw at their caller and never let
    a raw error out: each returns a promise, and whenever that promise is
    rejected the reason is the [HttpError] built from the error that arose
    in the method.  That error is the reason with which the provider
    rejected the call; or, in [fetchProfile], the error thrown by the
    decoder of the ID token; or the TypeError of reading a property of a
    value that is undefined or null, which can only be the user (in the
    three resource methods), the decoded claims (in [fetchProfile]), or the
    data of the GraphQL answer and its current user.  In particular
    [authorizeUser] is rejected only by the provider.  Conversely, when the
    provider rejects the REST call of [authorizeUser], or that of
    [fetchActivities] for a user whose access token can be read, the
    promise is rejected with the [HttpError] of exactly that reason. *)
Theorem services_reject_only_with_HttpError
    (HttpError : value -> value) (jwtDecode : value -> result value)
    (reply : http_reply) (gql : result value) (code user : value)
    (page limit : option number) (x : exchange) :
  let decoded := decoded_token jwtDecode user in
  settles_wrapping HttpError (original_error (axios_settle reply) None [])
    (authorizeUser HttpError reply code x).1
  /\ settles_wrapping HttpError
       (original_error (graphql_settle gql) decoded
          (user :: claims_read decoded ++ answer_read gql))
       (fetchProfile HttpError jwtDecode gql user x).1
  /\ settles_wrapping HttpError (original_error (axios_settle reply) None [user])
       (fetchActivities HttpError reply user page limit x).1
  /\ settles_wrapping HttpError
       (original_error (graphql_settle gql) None (user :: answer_read gql))
       (fetchGroups HttpError gql user x).1
  /\ (forall e,
        axios_settle reply = VPromise false e ->
        authorizeUser HttpError reply code x
        = (Returns (VPromise false (HttpError e)),
           with_effects x [AxiosPost token_url code]))
  /\ (forall e token,
        get_property user "access_token" = Returns token ->
        axios_settle reply = VPromise false e ->
        (fetchActivities HttpError reply user page limit x).1
        = Returns (VPromise false (HttpError e))).
Proof.
  intros decoded.
  split; [| split; [| split; [| split; [| split]]]].
  - apply async_try_catch_settles. intros e st'.
    unfold bind, emit, lift.
    destruct (await (axios_settle reply) _) as [[response|e'] st1] eqn:Hawait.
    + apply await_axios_returns in Hawait as [fields ->]. done.
    + thrown_by_provider.
  - apply async_try_catch_settles. intros e st'.
    unfold decoded, decoded_token, bind, emit, lift, ret.
    destruct (get_property user "access_token") as [token|e1] eqn:Htoken;
      [| thrown_by_read user].
    destruct (get_property user "id_token") as [id_token|e1] eqn:Hid;
      [| thrown_by_read user].
    destruct (jwtDecode id_token) as [claims|e1] eqn:Hdecode;
      [| intros [= <- _]; by apply decoder_threw].
    destruct (await (graphql_settle gql) _) as [[response|e1] st1] eqn:Hawait;
      [| thrown_by_provider].
    apply await_graphql_returns in Hawait as ->.
    destruct (get_property claims "sub") as [sub|e1] eqn:Hsub; [| thrown_by_read claims].
    destruct (get_property claims "email") as [email|e1] eqn:Hemail;
      [| thrown_by_read claims].
    destruct (get_property claims "preferred_username") as [username|e1] eqn:Husername;
      [| thrown_by_read claims].
    destruct (get_property claims "name") as [name|e1] eqn:Hname; [| thrown_by_read claims].
    destruct (get_property claims "picture") as [picture|e1] eqn:Hpicture;
      [| thrown_by_read claims].
    destruct (get_property response "currentUser") as [currentUser|e1] eqn:Hcurrent;
      [| thrown_by_read response].
    destruct (get_property currentUser "lastActivityOn") as [last|e1] eqn:Hlast;
      [done | thrown_by_read currentUser].
  - apply async_try_catch_settles. intros e st'.
    unfold bind, emit, lift, ret.
    destruct (get_property user "access_token") as [token|e1] eqn:Htoken;
      [| thrown_by_read user].
    destruct (await (axios_settle reply) _) as [[response|e1] st1] eqn:Hawait;
      [| thrown_by_provider].
    apply await_axios_returns in Hawait as [fields ->]. done.
  - apply async_try_catch_settles. intros e st'.
    unfold bind, emit, lift, ret.
    destruct (get_property user "access_token") as [token|e1] eqn:Htoken;
      [| thrown_by_read user].
    destruct (await (graphql_settle gql) _) as [[response|e1] st1] eqn:Hawait;
      [| thrown_by_provider].
    apply await_graphql_returns in Hawait as ->.
    destruct (get_property response "currentUser") as [currentUser|e1] eqn:Hcurrent;
      [| thrown_by_read response].
    destruct (get_property currentUser "groups") as [groups|e1] eqn:Hgroups;
      [done | thrown_by_read currentUser].
  - intros e Hrejected.
    unfold authorizeUser, async, try_catch, bind, emit, lift, throw, with_effects.
    by rewrite Hrejected.
  - intros e token Htoken Hrejected.
    unfold fetchActivities, async, try_catch, bind, emit, lift, throw.
    by rewrite Htoken, Hrejected.
Qed.

(** X8. Without a user in the session the resource service does not call
    the provider: for a user that is undefined or null each of the three
    methods leaves the exchange as it is (no request is sent) and returns a
    promise rejected with the wrapped TypeError of reading a property of
    the missing user. *)
Theorem no_user_no_provider_call
    (HttpError : value -> value) (jwtDecode : value -> result value)
    (reply : http_reply) (gql : result value) (user : value)
    (page limit : option number) (x : exchange) :
  nullish user = true ->
  exists message,
    let rejection := VPromise false (HttpError (VError "TypeError" message)) in
    fetchProfile HttpError jwtDecode gql user x = (Returns rejection, x)
    /\ fetchActivities HttpError reply user page limit x = (Returns rejection, x)
    /\ fetchGroups HttpError gql user x = (Returns rejection, x).
Proof.
  intros Hnull. destruct user; try discriminate Hnull; eexists; repeat split.
Qed.

Lemma no_user_no_provider_call_witness :
  let x := {| session_user := VNull; query := ∅; emitted := [] |} in
  exists message,
    let rejection := VPromise false (VError "TypeError" message) in
    fetchProfile (fun e => e) (fun _ => Returns VNull) (Returns (VObject [])) VNull x
    = (Returns rejection, x)
    /\ fetchActivities (fun e => e) (NetworkError VNull) VNull None None x
       = (Returns rejection, x)
    /\ fetchGroups (fun e => e) (Returns (VObject [])) VNull x = (Returns rejection, x).
Proof.
  apply (no_user_no_provider_call (fun e => e) (fun _ => Returns VNull)
           (NetworkError VNull) (Returns (VObject [])) VNull None None
           {| session_user := VNull; query := ∅; emitted := [] |}).
  reflexivity.
Defined.

(** X9. [fetchProfile] for a user whose tokens can be read.  The ID token
    is decoded before the provider is called, so an undecodable token is
    rejected without any request; otherwise exactly one GraphQL request is
    sent with the access token, a failed request is rejected, and an answer
    with a current user is fulfilled with the view model made of the five
    claims of the token and of [lastActivityOn]. *)
Theorem fetchProfile_outcomes
    (HttpError : value -> value) (jwtDecode : value -> result value)
    (gql : result value) (fields : list (string * value)) (x : exchange) :
  let user := VObject fields in
  let access_token := assoc "access_token" fields in
  let request := GraphQLRequest access_token lastActivity_query in
  (forall error,
      jwtDecode (assoc "id_token" fields) = Throws error ->
      fetchProfile HttpError jwtDecode gql user x
      = (Returns (VPromise false (HttpError error)), x))
  /\ (forall claims error,
      jwtDecode (assoc "id_token" fields) = Returns claims ->
      gql = Throws error ->
      fetchProfile HttpError jwtDecode gql user x
      = (Returns (VPromise false (HttpError error)), with_effects x [request]))
  /\ (forall claims data currentUser,
      jwtDecode (assoc "id_token" fields) = Returns (VObject claims) ->
      gql = Returns (VObject data) ->
      assoc "currentUser" data = VObject currentUser ->
      fetchProfile HttpError jwtDecode gql user x
      = (Returns (VPromise true
           (VObject [("id", assoc "sub" claims); ("email", assoc "email" claims);
                     ("username", assoc "preferred_username" claims);
                     ("name", assoc "name" claims); ("avatar", assoc "picture" claims);
                     ("lastActivityOn", assoc "lastActivityOn" currentUser)])),
         with_effects x [request])).
Proof.
  intros user access_token request. split; [| split].
  - intros error Hdecode.
    unfold fetchProfile, async, try_catch, bind, lift, throw; simpl. by rewrite Hdecode.
  - intros claims error Hdecode ->.
    unfold fetchProfile, async, try_catch, bind, lift, throw, emit, await; simpl.
    by rewrite Hdecode.
  - intros claims data currentUser Hdecode -> Hcurrent.
    unfold fetchProfile, async, try_catch, bind, lift, throw, emit, await, ret; simpl.
    rewrite Hdecode. simpl. by rewrite Hcurrent.
Qed.

(** X10. [fetchGroups] for a user whose access token can be read: exactly
    one GraphQL request is sent; a failed request is rejected; an answer
    with a current user is fulfilled with the groups of that user; and an
    answer whose current user is null or missing is rejected with a wrapped
    TypeError instead of being fulfilled with undefined. *)
Theorem fetchGroups_outcomes
    (HttpError : value -> value) (gql : result value)
    (fields : list (string * value)) (x : exchange) :
  let user := VObject fields in
  let sent := with_effects x [GraphQLRequest (assoc "access_token" fields) groups_query] in
  (forall error,
      gql = Throws error ->
      fetchGroups HttpError gql user x = (Returns (VPromise false (HttpError error)), sent))
  /\ (forall data currentUser,
      gql = Returns (VObject data) ->
      assoc "currentUser" data = VObject currentUser ->
      fetchGroups HttpError gql user x
      = (Returns (VPromise true (assoc "groups" currentUser)), sent))
  /\ (forall data,
      gql = Returns (VObject data) ->
      nullish (assoc "currentUser" data) = true ->
      exists message,
        fetchGroups HttpError gql user x
        = (Returns (VPromise false (HttpError (VError "TypeError" message))), sent)).
Proof.
  intros user sent. split; [| split].
  - by intros error ->.
  - intros data currentUser -> Hcurrent.
    unfold fetchGroups, async, try_catch, bind, lift, throw, emit, await, ret; simpl.
    by rewrite Hcurrent.
  - intros data -> Hnull.
    unfold fetchGroups, async, try_catch, bind, lift, throw, emit, await, ret; simpl.
    destruct (assoc "currentUser" data); try discriminate Hnull; by eexists.
Qed.

(** ** Pagination *)

(** The request of [fetchActivities] leaves before the provider answers. *)
Lemma fetchActivities_request HttpError reply user token page limit x :
  get_property user "access_token" = Returns token ->
  (fetchActivities HttpError reply user (Some page) (Some limit) x).2
  = with_effects x [AxiosGet events_url limit (queried_page page limit) token].
Proof.
  intros Htoken.
  unfold fetchActivities, async, try_catch, bind, lift, emit, await, throw, axios_settle;
    simpl.
  rewrite Htoken.
  destruct reply as [error | status data]; [done |].
  by destruct ((200 <=? status)%Z && (status <? 300)%Z).
Qed.

Lemma ceil_div_positive (l : Z) :
  (1 <= l)%Z ->
  exists t, ceil_div totalActivities (Finite l) = Finite t
            /\ (1 <= t <= 120)%Z /\ ((t - 1) * l < 120 <= t * l)%Z.
Proof.
  intros Hl. exists (- ((- totalActivities) / l))%Z.
  pose proof (Z.div_mod (- totalActivities) l ltac:(lia)) as Hdm.
  pose proof (Z.mod_pos_bound (- totalActivities) l ltac:(lia)) as Hmod.
  set (q := ((- totalActivities) / l)%Z) in *.
  assert (Htotal : totalActivities = 120%Z) by reflexivity.
  assert (Hbounds : ((- q - 1) * l < 120 <= - q * l)%Z) by nia.
  assert (Hrange : (1 <= - q <= 120)%Z) by nia.
  split; [| by split].
  unfold ceil_div. destruct l as [| l | l]; [lia | | lia].
  cbv zeta. fold q. rewrite (proj2 (Z.eqb_neq (- q) 0)); [done | lia].
Qed.

(** X11. Pagination for a positive page size.  For a limit [l >= 1] the page
    ceiling [totalPages] is the least number of pages of [l] activities that
    hold all 120 (so it lies between 1 and 120), [per_page = l] is sent, and
    the page sent is the smaller of the requested page and the ceiling: the
    clamp has no lower side, a requested page 0 or below is sent as it is. *)
Theorem activities_request_for_positive_limit
    (HttpError : value -> value) (reply : http_reply) (user token : value)
    (p l : Z) (x : exchange) :
  get_property user "access_token" = Returns token ->
  (1 <= l)%Z ->
  exists totalPages,
    ceil_div totalActivities (Finite l) = Finite totalPages
    /\ (1 <= totalPages <= 120)%Z
    /\ ((totalPages - 1) * l < 120 <= totalPages * l)%Z
    /\ (fetchActivities HttpError reply user (Some (Finite p)) (Some (Finite l)) x).2
       = with_effects x
           [AxiosGet events_url (Finite l) (Finite (Z.min p totalPages)) token].
Proof.
  intros Htoken Hl.
  destruct (ceil_div_positive l Hl) as (t & Hceil & Hrange & Hcover).
  exists t. split; [exact Hceil |]. split; [exact Hrange |]. split; [exact Hcover |].
  rewrite (fetchActivities_request _ _ _ _ _ _ _ Htoken).
  unfold queried_page. rewrite Hceil. simpl.
  destruct (p <=? t)%Z eqn:Hle.
  - apply Z.leb_le in Hle. by rewrite Z.min_l.
  - apply Z.leb_gt in Hle. by rewrite Z.min_r by lia.
Qed.

Lemma activities_request_for_positive_limit_witness :
  exists totalPages,
    ceil_div totalActivities (Finite 50) = Finite totalPages
    /\ (1 <= totalPages <= 120)%Z
    /\ ((totalPages - 1) * 50 < 120 <= totalPages * 50)%Z
    /\ (fetchActivities (fun e => e) (NetworkError VNull)
          (VObject [("access_token", VString "t")])
          (Some (Finite (-2))) (Some (Finite 50))
          {| session_user := VNull; query := ∅; emitted := [] |}).2
       = with_effects {| session_user := VNull; query := ∅; emitted := [] |}
           [AxiosGet events_url (Finite 50) (Finite (Z.min (-2) totalPages))
              (VString "t")].
Proof.
  apply (activities_request_for_positive_limit (fun e => e) (NetworkError VNull)
           (VObject [("access_token", VString "t")]) (VString "t") (-2) 50
           {| session_user := VNull; query := ∅; emitted := [] |}).
  - reflexivity.
  - lia.
Defined.

(** X12. The page size is not validated.  With limit 0 the ceiling is
    +Infinity and every requested page is sent as it is, with per_page 0;
    with a negative limit the ceiling is negative or -0, so that every
    requested page from 1 on is replaced by that ceiling and a page that is
    not positive is asked of the provider. *)
Theorem activities_request_for_nonpositive_limit
    (HttpError : value -> value) (reply : http_reply) (user token : value)
    (p l : Z) (x : exchange) :
  get_property user "access_token" = Returns token ->
  (l <= 0)%Z ->
  let totalPages := ceil_div totalActivities (Finite l) in
  exists sent,
    (fetchActivities HttpError reply user (Some (Finite p)) (Some (Finite l)) x).2
    = with_effects x [AxiosGet events_url (Finite l) sent token]
    /\ (l = 0%Z -> totalPages = PosInf /\ sent = Finite p)
    /\ (l < 0 -> number_le totalPages NegZero = true
                 /\ (1 <= p -> sent = totalPages))%Z.
Proof.
  intros Htoken Hl totalPages.
  exists (queried_page (Finite p) (Finite l)).
  split; [by apply fetchActivities_request |]. split.
  - intros ->. by split.
  - intros Hneg.
    assert (Hceil : exists c, (c <= 0)%Z
              /\ totalPages = (if (c =? 0)%Z then NegZero else Finite c)).
    { exists (- ((- totalActivities) / l))%Z.
      pose proof (Z.div_mod (- totalActivities) l ltac:(lia)) as Hdm.
      pose proof (Z.mod_neg_bound (- totalActivities) l ltac:(lia)) as Hmod.
      set (q := ((- totalActivities) / l)%Z) in *.
      assert (Htotal : totalActivities = 120%Z) by reflexivity.
      split; [nia |].
      unfold totalPages, ceil_div. destruct l as [| l | l]; [lia .. |]. reflexivity. }
    destruct Hceil as (c & Hc & Htotal).
    unfold queried_page. fold totalPages. rewrite Htotal.
    destruct (c =? 0)%Z eqn:Hzero; simpl.
    + split; [done |]. intros Hp.
      destruct (p <=? 0)%Z eqn:Hle; [| done]. apply Z.leb_le in Hle. lia.
    + apply Z.eqb_neq in Hzero. split; [apply Z.leb_le; lia |]. intros Hp.
      destruct (p <=? c)%Z eqn:Hle; [| done]. apply Z.leb_le in Hle. lia.
Qed.

Lemma activities_request_for_nonpositive_limit_witness :
  exists sent,
    (fetchActivities (fun e => e) (NetworkError VNull)
       (VObject [("access_token", VString "t")])
       (Some (Finite 3)) (Some (Finite (-7)))
       {| session_user := VNull; query := ∅; emitted := [] |}).2
    = with_effects {| session_user := VNull; query := ∅; emitted := [] |}
        [AxiosGet events_url (Finite (-7)) sent (VString "t")]
    /\ ((-7)%Z = 0%Z ->
        ceil_div totalActivities (Finite (-7)) = PosInf /\ sent = Finite 3)
    /\ (-7 < 0 -> number_le (ceil_div totalActivities (Finite (-7))) NegZero = true
                  /\ (1 <= 3 -> sent = ceil_div totalActivities (Finite (-7))))%Z.
Proof.
  apply (activities_request_for_nonpositive_limit (fun e => e) (NetworkError VNull)
           (VObject [("access_token", VString "t")]) (VString "t") 3 (-7)
           {| session_user := VNull; query := ∅; emitted := [] |}).
  - reflexivity.
  - lia.
Defined.

(** * Further properties of the routes *)

Lemma with_effects_nil x : with_effects x [] = x.
Proof. destruct x. unfold with_effects; simpl. by rewrite app_nil_r. Qed.

Lemma with_effects_app x a b :
  with_effects (with_effects x a) b = with_effects x (a ++ b).
Proof. unfold with_effects; simpl. by rewrite app_assoc. Qed.

Lemma outbound_ret {A} (a : A) : outbound_only (ret a).
Proof. intros x. exists []. by rewrite with_effects_nil. Qed.

Lemma outbound_throw {A} e : outbound_only (@throw exchange A e).
Proof. intros x. exists []. by rewrite with_effects_nil. Qed.

Lemma outbound_lift {A} (r : result A) : outbound_only (lift r).
Proof. intros x. exists []. by rewrite with_effects_nil. Qed.

Lemma outbound_gets {A} (f : exchange -> A) : outbound_only (gets f).
Proof. intros x. exists []. by rewrite with_effects_nil. Qed.

Lemma outbound_emit e : is_terminal e = false -> outbound_only (emit e).
Proof. intros He x. exists [e]. simpl. by rewrite He. Qed.

Lemma outbound_await v : outbound_only (await v).
Proof.
  destruct v as [| | | | | | | | [] payload]; simpl;
    first [apply outbound_ret | apply outbound_throw].
Qed.

Lemma outbound_bind {A B} (m : M exchange A) (k : A -> M exchange B) :
  outbound_only m -> (forall a, outbound_only (k a)) -> outbound_only (bind m k).
Proof.
  intros Hm Hk x. unfold bind. destruct (Hm x) as (c1 & He1 & Hq1).
  destruct (m x) as [[a|e] x1]; simpl in *; [| by exists c1].
  destruct (Hk a x1) as (c2 & He2 & Hq2).
  exists (c1 ++ c2). by rewrite He2, He1, with_effects_app, forallb_app, Hq1, Hq2.
Qed.

Lemma outbound_try_catch {A} (m : M exchange A) (handler : value -> M exchange A) :
  outbound_only m -> (forall e, outbound_only (handler e)) ->
  outbound_only (try_catch m handler).
Proof.
  intros Hm Hh x. unfold try_catch. destruct (Hm x) as (c1 & He1 & Hq1).
  destruct (m x) as [[a|e] x1]; simpl in *; [by exists c1 |].
  destruct (Hh e x1) as (c2 & He2 & Hq2).
  exists (c1 ++ c2). by rewrite He2, He1, with_effects_app, forallb_app, Hq1, Hq2.
Qed.

Lemma outbound_async (m : M exchange value) : outbound_only m -> outbound_only (async m).
Proof.
  intros Hm x. destruct (async_returns_promise m x) as (ok & payload & _ & Hst).
  rewrite Hst. apply Hm.
Qed.

Ltac outbound_steps :=
  repeat first
    [ apply outbound_async | apply outbound_try_catch | apply outbound_bind | intros ?
    | apply outbound_ret | apply outbound_throw | apply outbound_lift
    | apply outbound_gets | apply outbound_await | apply outbound_emit; reflexivity ].

Lemma outbound_fetchProfile HttpError jwtDecode reply user :
  outbound_only (fetchProfile HttpError jwtDecode reply user).
Proof. unfold fetchProfile. outbound_steps. Qed.

Lemma outbound_fetchActivities HttpError reply user page limit :
  outbound_only (fetchActivities HttpError reply user page limit).
Proof. unfold fetchActivities. outbound_steps. Qed.

Lemma outbound_fetchGroups HttpError reply user :
  outbound_only (fetchGroups HttpError reply user).
Proof. unfold fetchGroups. outbound_steps. Qed.

(** An action that calls an asynchronous service and renders: the calls of
    the service, then the one rendering. *)
Lemma action_renders_once (service_call : M exchange value) m view wrap handler x :
  service_call = async m ->
  outbound_only service_call ->
  exists calls locals,
    (async (try_catch
              (let* promise := service_call in emit (Render view (wrap promise)))
              handler) x).2
    = with_effects x (calls ++ [Render view locals])
    /\ forallb (fun e => negb (is_terminal e)) calls = true.
Proof.
  intros -> Hout.
  destruct (Hout x) as (calls & Hst & Hcalls).
  destruct (async_returns_promise m x) as (ok & payload & Hp & _).
  unfold try_catch, bind, emit. unfold async at 1.
  destruct (async m x) as [r x1]. simpl in *. subst r x1. simpl.
  exists calls, (wrap (VPromise ok payload)). split; [| done].
  unfold with_effects; simpl. by rewrite app_assoc.
Qed.

Section Routes.

Variable HttpError : value -> value.
Variable convertToHttpError : value -> value.
Variable jwtDecode : value -> result value.
Variable process_env : string -> option string.

(** What each handler leaves behind: the exchange with some calls of the
    provider and one terminal effect added, the session user being written
    only by a successful code exchange. *)
Lemma handler_outcome (p : provider) (r : route) (x : exchange) :
  exists calls final user,
    (handler_of HttpError convertToHttpError jwtDecode process_env p r x).2
    = {| session_user := user; query := query x;
         emitted := emitted x ++ calls ++ [final] |}
    /\ forallb (fun e => negb (is_terminal e)) calls = true
    /\ is_terminal final = true
    /\ (user = session_user x
        \/ (r = GetAuthCallback /\ exchange_succeeds (token_reply p) = true
            /\ user = token_payload (token_reply p)))
    /\ exists v, (handler_of HttpError convertToHttpError jwtDecode process_env p r x).1 = Returns v.
Proof.
  assert (Haction : forall view calls locals st,
            st = with_effects x (calls ++ [Render view locals]) ->
            forallb (fun e => negb (is_terminal e)) calls = true ->
            exists calls final user,
              st = {| session_user := user; query := query x;
                      emitted := emitted x ++ calls ++ [final] |}
              /\ forallb (fun e => negb (is_terminal e)) calls = true
              /\ is_terminal final = true
              /\ (user = session_user x
                  \/ (r = GetAuthCallback /\ exchange_succeeds (token_reply p) = true
                      /\ user = token_payload (token_reply p)))).
  { intros view calls locals st -> Hcalls.
    exists calls, (Render view locals), (session_user x).
    repeat split; try done. by left. }
  assert (Hreturns : forall m : M exchange value, exists v, (async m x).1 = Returns v).
  { intros m. destruct (async_returns_promise m x) as (ok & payload & Hp & _). eauto. }
  destruct r as [| | | | | | | url]; simpl.
  - exists [], (Render "index" VUndefined), (session_user x).
    repeat split; try done; [by left | first [by eexists | apply Hreturns]].
  - exists [], (Render "home" VUndefined), (session_user x).
    repeat split; try done; [by left | first [by eexists | apply Hreturns]].
  - destruct (action_renders_once
                (fetchProfile HttpError jwtDecode (graphql_reply p) (session_user x))
                _ "profile" (fun v => v)
                (fun error => emit (Next (convertToHttpError error))) x eq_refl
                (outbound_fetchProfile _ _ _ _)) as (calls & locals & Hst & Hcalls).
    destruct (Haction "profile" calls locals _ Hst Hcalls)
      as (c & f & u & HA & HB & HC & HD). exists c, f, u.
    split; [exact HA |]. split; [exact HB |]. split; [exact HC |]. split; [exact HD |].
    first [by eexists | apply Hreturns].
  - destruct (action_renders_once
                (fetchActivities HttpError (events_reply p) (session_user x)
                   (Some (parseInt (query x !! "page")))
                   (Some (parseInt (query x !! "limit"))))
                _ "activities" (fun v => v)
                (fun error => emit (Next (convertToHttpError error))) x eq_refl
                (outbound_fetchActivities _ _ _ _ _)) as (calls & locals & Hst & Hcalls).
    destruct (Haction "activities" calls locals _ Hst Hcalls)
      as (c & f & u & HA & HB & HC & HD). exists c, f, u.
    split; [exact HA |]. split; [exact HB |]. split; [exact HC |]. split; [exact HD |].
    first [by eexists | apply Hreturns].
  - destruct (action_renders_once
                (fetchGroups HttpError (graphql_reply p) (session_user x))
                _ "groups" (fun v => VObject [("groups", v)])
                (fun error => emit (Next (convertToHttpError error))) x eq_refl
                (outbound_fetchGroups _ _ _)) as (calls & locals & Hst & Hcalls).
    destruct (Haction "groups" calls locals _ Hst Hcalls)
      as (c & f & u & HA & HB & HC & HD). exists c, f, u.
    split; [exact HA |]. split; [exact HB |]. split; [exact HC |]. split; [exact HD |].
    first [by eexists | apply Hreturns].
  - exists [], (Redirect (authorize_location process_env)), (session_user x).
    repeat split; try done; [by left | first [by eexists | apply Hreturns]].
  - unfold bind at 1, gets at 1.
    unfold authorize, authorizeUser, async, try_catch, bind, await, emit, throw, modify,
      lift, axios_settle; simpl.
    destruct (token_reply p) as [error | status data] eqn:Hreply; simpl.
    + exists [AxiosPost token_url (query_code x)],
        (Next (convertToHttpError (HttpError error))), (session_user x).
      rewrite <- app_assoc.
      split; [done |]. split; [done |]. split; [done |]. split; [by left | by eexists].
    + destruct ((200 <=? status)%Z && (status <? 300)%Z) eqn:Hok; simpl.
      * exists [AxiosPost token_url (query_code x)], (Redirect "/home"), data.
        rewrite <- app_assoc.
        split; [done |]. split; [done |]. split; [done |]. split; [| by eexists].
        right. by rewrite ?Hok.
      * eexists [AxiosPost token_url (query_code x)], (Next _), (session_user x).
        rewrite <- app_assoc.
        split; [done |]. split; [done |]. split; [done |]. split; [by left | by eexists].
  - eexists [], (Next _), (session_user x).
    repeat split; try done; [by left | by eexists].
Qed.

End Routes.

Section Gate.

Variable HttpError : value -> value.
Variable convertToHttpError : value -> value.
Variable jwtDecode : value -> result value.
Variable process_env : string -> option string.

(** The gate in front of a handler that returns: the handler runs on the
    exchange as it is when the session has a truthy user, and not at all
    otherwise. *)
Lemma behind_gate_outcome (h : M exchange value) (x : exchange) v :
  (h x).1 = Returns v ->
  behind_gate convertToHttpError h x
  = (Returns (VPromise true VUndefined),
     if truthy (session_user x) then (h x).2 else turned_away x).
Proof.
  intros Hreturns.
  unfold behind_gate, authenticate, async, try_catch, bind, gets, modify, emit, ret; simpl.
  destruct (truthy (session_user x)); [| done].
  destruct (h x) as [r x1]. simpl in Hreturns. by subst r.
Qed.

Lemma router_behind_gate (p : provider) (r : route) :
  protected r = true ->
  router HttpError convertToHttpError jwtDecode process_env p r
  = behind_gate convertToHttpError
      (handler_of HttpError convertToHttpError jwtDecode process_env p r).
Proof. by destruct r. Qed.

Lemma router_without_gate (p : provider) (r : route) :
  protected r = false ->
  router HttpError convertToHttpError jwtDecode process_env p r
  = handler_of HttpError convertToHttpError jwtDecode process_env p r.
Proof. by destruct r. Qed.

(** X13. The authentication gate.  On each of the four protected routes
    (/home, /profile, /activities, /groups) a request whose session has no
    truthy user is turned away: the session user is set to null, the client
    is redirected to "/", and the controller action does not run, so that
    nothing is rendered and the provider is not called.  With a truthy user
    the gate adds nothing: the outcome is that of the controller action. *)
Theorem gate_turns_away_requests_without_user
    (p : provider) (r : route) (x : exchange) :
  protected r = true ->
  (truthy (session_user x) = false ->
   router HttpError convertToHttpError jwtDecode process_env p r x
   = (Returns (VPromise true VUndefined), turned_away x))
  /\ (truthy (session_user x) = true ->
      (router HttpError convertToHttpError jwtDecode process_env p r x).2
      = (handler_of HttpError convertToHttpError jwtDecode process_env p r x).2).
Proof.
  intros Hprotected. rewrite (router_behind_gate p r Hprotected).
  destruct (handler_outcome HttpError convertToHttpError jwtDecode process_env p r x)
    as (_ & _ & _ & _ & _ & _ & _ & v & Hreturns).
  rewrite (behind_gate_outcome _ x v Hreturns).
  split; intros ->; done.
Qed.

(** X14. Every request that reaches the router is answered exactly once:
    whatever the route, the session and the answers of the provider, the
    handlers add some calls of the provider followed by exactly one
    redirect, rendering or hand-over to the next stage.  The query is left
    alone, and the session user is written in two cases only: the gate sets
    it to null when it turns a request away, and the callback route sets it
    to the token payload when the code exchange succeeds. *)
Theorem every_route_answers_once
    (p : provider) (r : route) (x : exchange) :
  let x' := (router HttpError convertToHttpError jwtDecode process_env p r x).2 in
  answered_once x x'
  /\ query x' = query x
  /\ (session_user x' = session_user x
      \/ (protected r = true /\ truthy (session_user x) = false
          /\ session_user x' = VNull)
      \/ (r = GetAuthCallback /\ exchange_succeeds (token_reply p) = true
          /\ session_user x' = token_payload (token_reply p))).
Proof.
  intros x'.
  destruct (handler_outcome HttpError convertToHttpError jwtDecode process_env p r x)
    as (calls & final & user & Hst & Hcalls & Hfinal & Huser & v & Hreturns).
  assert (Hhandler :
            x' = (handler_of HttpError convertToHttpError jwtDecode process_env p r x).2
            \/ (protected r = true /\ truthy (session_user x) = false
                /\ x' = turned_away x)).
  { unfold x'. destruct (protected r) eqn:Hprotected.
    - rewrite (router_behind_gate p r Hprotected).
      rewrite (behind_gate_outcome _ x v Hreturns). simpl.
      destruct (truthy (session_user x)); [by left | by right].
    - left. by rewrite (router_without_gate p r Hprotected). }
  destruct Hhandler as [-> | (Hprotected & Hfalsy & ->)].
  - rewrite Hst. simpl. split; [by exists calls, final |]. split; [done |].
    destruct Huser as [-> | Hcallback]; [by left | by right; right].
  - simpl. split; [by exists [], (Redirect "/") |]. split; [done |].
    right. by left.
Qed.

End Gate.

Lemma gate_turns_away_requests_without_user_witness :
  let x := {| session_user := VUndefined; query := ∅; emitted := [] |} in
  let p := {| token_reply := NetworkError VNull; events_reply := NetworkError VNull;
              graphql_reply := Returns (VObject []) |} in
  router (fun e => e) (fun e => e) (fun _ => Returns VNull) (fun _ => None) p GetProfile x
  = (Returns (VPromise true VUndefined),
     {| session_user := VNull; query := ∅; emitted := [Redirect "/"] |}).
Proof.
  refine (proj1 (gate_turns_away_requests_without_user (fun e => e) (fun e => e)
                   (fun _ => Returns VNull) (fun _ => None)
                   {| token_reply := NetworkError VNull;
                      events_reply := NetworkError VNull;
                      graphql_reply := Returns (VObject []) |}
                   GetProfile
                   {| session_user := VUndefined; query := ∅; emitted := [] |} _) _);
    reflexivity.
Defined.

(** ** The error responder *)

Lemma assoc_set_property_same k v fields : assoc k (set_property k v fields) = v.
Proof.
  induction fields as [| [k' v'] fields IH]; simpl.
  - by rewrite String.eqb_refl.
  - destruct (String.eqb k k') eqn:Hk; simpl; rewrite ?String.eqb_refl, ?Hk; done.
Qed.

Lemma assoc_set_property_other k k' v fields :
  k <> k' -> assoc k (set_property k' v fields) = assoc k fields.
Proof.
  intros Hne.
  assert (Hkk : String.eqb k k' = false) by by apply String.eqb_neq.
  induction fields as [| [k0 v0] fields IH]; simpl.
  - by rewrite Hkk.
  - destruct (String.eqb k' k0) eqn:Hk0; simpl.
    + apply String.eqb_eq in Hk0. subst k0. by rewrite Hkk.
    + by rewrite IH.
Qed.

(** X15. What the error responder sends.  The status of the response is
    always truthy.  In production the body has the single property
    [error]: an error with a truthy status is answered with its own status
    and message, and any other error with status 500 and the message
    "Internal Server Error", whatever its own message was.  Outside of
    production the copy of the unchanged error is sent, with the error's
    status or 500. *)
Theorem error_responder_response
    (decycle : value -> value) (err : list (string * value)) :
  let status := assoc "status" err in
  (truthy status = true ->
   error_responder true decycle err
   = Json status (VObject [("error", assoc "message" err)])
   /\ error_responder false decycle err = Json status (decycle (VObject err)))
  /\ (truthy status = false ->
      error_responder true decycle err
      = Json (VNumber (Finite 500)) (VObject [("error", VString "Internal Server Error")])
      /\ error_responder false decycle err
         = Json (VNumber (Finite 500)) (decycle (VObject err)))
  /\ (forall production,
        match error_responder production decycle err with
        | Json sent _ => truthy sent = true
        end).
Proof.
  intros status. unfold error_responder. fold status.
  split; [| split].
  - intros Htruthy. by rewrite Htruthy.
  - intros Hfalsy. rewrite Hfalsy. simpl.
    rewrite assoc_set_property_same.
    rewrite assoc_set_property_other by done.
    by rewrite assoc_set_property_same.
  - intros [|]; destruct (truthy status) eqn:Hstatus; simpl; try done.
    rewrite assoc_set_property_other by done.
    by rewrite assoc_set_property_same.
Qed.

(** ** Worked examples *)

Example parseInt_7 : parseInt (Some "7") = Finite 7.
Proof. reflexivity. Qed.

Example parseInt_padded : parseInt (Some "  -12px") = Finite (-12).
Proof. reflexivity. Qed.

Example parseInt_hex : parseInt (Some "0x1f") = Finite 31.
Proof. reflexivity. Qed.

Example parseInt_empty : parseInt (Some "") = NaN.
Proof. reflexivity. Qed.

Example parseInt_negative_zero : parseInt (Some "-0") = NegZero.
Proof. reflexivity. Qed.

Example parseInt_undefined : parseInt None = NaN.
Proof. reflexivity. Qed.

Example ceil_div_samples :
  (ceil_div 120 (Finite 20), ceil_div 120 (Finite 7), ceil_div 120 (Finite (-7)),
   ceil_div 120 (Finite 121), ceil_div 120 (Finite (-121)), ceil_div 120 (Finite 0),
   ceil_div 120 NegZero, ceil_div 120 NaN)
  = (Finite 6, Finite 18, Finite (-17), Finite 1, NegZero, PosInf, NegInf, NaN).
Proof. reflexivity. Qed.

Example arrow_sources_accepted :
  (arrowFunctionRegex_test "() => new Service()",
   arrowFunctionRegex_test " ( c ) => c('AuthService')",
   arrowFunctionRegex_test "c=>c",
   arrowFunctionRegex_test "_x1 => {}")
  = (true, true, true, true).
Proof. reflexivity. Qed.

Example arrow_sources_rejected :
  (arrowFunctionRegex_test "(a, b) => a",
   arrowFunctionRegex_test "(c = null) => c",
   arrowFunctionRegex_test "async (c) => c",
   arrowFunctionRegex_test "function (c) { return c }",
   arrowFunctionRegex_test "class AuthService {}",
   arrowFunctionRegex_test "")
  = (false, false, false, false, false, false).
Proof. reflexivity. Qed.

(** One-parameter factories that the pattern does not accept. *)
Example factories_outside_the_pattern :
  (arrowFunctionRegex_test "$c => 'made'",
   arrowFunctionRegex_test "(c = null) => 'made'",
   arrowFunctionRegex_test "({ c }) => 'made'")
  = (false, false, false).
Proof. reflexivity. Qed.

(** A factory that pulls a dependency through its argument obtains what the
    container resolves for that name. *)
Example factory_pulls_its_dependency :
  let st := registerTransient "alias" (alias_factory "store") []
              (registerSingleton "store" plain_class [] IoCContainer_new) in
  (resolve 2 None "alias" st).1 = (resolve 1 None "store" st).1
  /\ (resolve 1 None "store" st).1 = Returns (VInstance 0).
Proof. vm_compute. split; reflexivity. Qed.

(** A controller with its service: the controller's class takes the
    resolved service as its constructor argument. *)
Example controller_receives_its_service :
  let st := registerSingleton "AuthController" plain_class ["AuthService"]
              (registerSingleton "AuthService" plain_class [] IoCContainer_new) in
  let '(r, st') := resolve 2 None "AuthController" st in
  r = Returns (VInstance 1)
  /\ singletons st' !! "AuthService" = Some (VInstance 0)
  /\ constructions st' = 2.
Proof. vm_compute. repeat split. Qed.

(** A dependency cycle exhausts the call stack. *)
Example circular_dependency_overflows :
  let st := registerTransient "a" plain_class ["b"]
              (registerTransient "b" plain_class ["a"] IoCContainer_new) in
  (resolve 50 None "a" st).1
  = Throws (VError "RangeError" "Maximum call stack size exceeded").
Proof. vm_compute. reflexivity. Qed.

(** The provider rejects the GraphQL request of [profile]: the rejected
    promise is rendered and [next] is not called; the same rejection in
    [authorize], which awaits its service, reaches [next]. *)
Example profile_renders_a_rejected_promise :
  let HttpError := fun e => VObject [("name", VString "HttpError"); ("cause", e)] in
  let rejection := VError "ClientError" "401 Unauthorized" in
  let x := {| session_user := VObject [("access_token", VString "t");
                                        ("id_token", VString "j")];
              query := ∅; emitted := [] |} in
  emitted (profile HttpError (fun e => e) (fun _ => Returns (VObject []))
             (Throws rejection) x).2
  = [GraphQLRequest (VString "t") lastActivity_query;
     Render "profile" (VPromise false (HttpError rejection))].
Proof. reflexivity. Qed.

Example authorize_forwards_a_rejection :
  let HttpError := fun e => VObject [("name", VString "HttpError"); ("cause", e)] in
  let rejection := VError "AxiosError" "Network Error" in
  let x := {| session_user := VUndefined; query := ∅; emitted := [] |} in
  (authorize HttpError (fun e => e) (NetworkError rejection) (VString "code") x).2
  = {| session_user := VUndefined; query := ∅;
       emitted := [AxiosPost token_url (VString "code"); Next (HttpError rejection)] |}.
Proof. reflexivity. Qed.
